(** * The AI-analyzer client wrapper (apps/backend/runners/ai_analyzer/claude_client.py)

    A shallow embedding of [ClaudeAnalysisClient]: the credential check of the
    constructor, the permission descriptor written to and removed from the
    project directory, the system prompt with its language clause, the
    configuration bundle handed to the agent client, the scoped session and
    the collection of the streamed reply.

    Python's exceptions are an error type, its [try]/[finally] and
    [async with] statements are combinators of a small state-and-error monad,
    and every call that leaves the module (the file system, the credential
    check, the agent SDK) leaves one event in a log, together with the state
    of the world in which it was made. *)

From Stdlib Require Import Ascii String.
From stdpp Require Import gmap strings list.

Local Open Scope string_scope.
Set Warnings "-register-all".

(** ** Strings *)

Definition dquote : string := String "034"%char EmptyString.
Definition newline : string := String "010"%char EmptyString.

(** [sep.join(l)]. *)
Fixpoint join (sep : string) (l : list string) : string :=
  match l with
  | [] => EmptyString
  | [s] => s
  | s :: rest => s +:+ sep +:+ join sep rest
  end.

(** [sub in s] on Python strings. *)
Definition contains (s sub : string) : Prop :=
  exists pre post, s = pre +:+ sub +:+ post.

(** ** Paths

    A [pathlib] path is the list of its parts, as [PurePosixPath.parts] shows
    it: [/repo] is ["/"; "repo"].  Joining a path with one relative
    component appends the component. *)

Definition Path := list string.

Definition path_div (p : Path) (name : string) : Path := (p ++ [name])%list.

(** [str(p)] of a POSIX path; its first part is the root when the path is
    absolute: one slash, or exactly two. *)
Definition path_str (p : Path) : string :=
  match p with
  | [] => "."
  | root :: rest =>
      if String.eqb root "/" || String.eqb root "//" then root +:+ join "/" rest
      else join "/" p
  end.

(** ** JSON values and [json.dump(value, f, indent=2)]

    Dictionaries keep their insertion order, as Python's do. *)

Inductive json :=
| JBool (b : bool)
| JStr (s : string)
| JList (items : list json)
| JDict (items : list (string * json)).

Definition hex_digit (n : nat) : ascii :=
  ascii_of_nat (if Nat.ltb n 10 then 48 + n else 87 + n).

(** One character of a string literal, as [json.encoder] escapes it with
    [ensure_ascii]: the quote, the backslash, and every character outside
    the printable ASCII range (a character of a string is a code point below
    256). *)
Definition escape_char (c : ascii) : string :=
  let n := nat_of_ascii c in
  if Nat.eqb n 34 then String "092"%char dquote
  else if Nat.eqb n 92 then String "092"%char (String "092"%char EmptyString)
  else if Nat.eqb n 10 then String "092"%char "n"
  else if Nat.eqb n 13 then String "092"%char "r"
  else if Nat.eqb n 9 then String "092"%char "t"
  else if Nat.eqb n 8 then String "092"%char "b"
  else if Nat.eqb n 12 then String "092"%char "f"
  else if Nat.ltb n 32 || Nat.leb 127 n then
    String "092"%char
      ("u00" +:+ String (hex_digit (n / 16)) (String (hex_digit (n mod 16)) EmptyString))
  else String c EmptyString.

Fixpoint escape (s : string) : string :=
  match s with
  | EmptyString => EmptyString
  | String c rest => escape_char c +:+ escape rest
  end.

Definition encode_str (s : string) : string := dquote +:+ escape s +:+ dquote.

Fixpoint spaces (n : nat) : string :=
  match n with
  | O => EmptyString
  | S k => " " +:+ spaces k
  end.

(** The line break and indentation that precede an item at nesting [level]. *)
Definition newline_indent (level : nat) : string := newline +:+ spaces (2 * level).

Fixpoint encode (level : nat) (v : json) : string :=
  match v with
  | JBool true => "true"
  | JBool false => "false"
  | JStr s => encode_str s
  | JList [] => "[]"
  | JList items =>
      "[" +:+ newline_indent (S level)
          +:+ join ("," +:+ newline_indent (S level)) (List.map (encode (S level)) items)
          +:+ newline_indent level +:+ "]"
  | JDict [] => "{}"
  | JDict items =>
      "{" +:+ newline_indent (S level)
          +:+ join ("," +:+ newline_indent (S level))
                (List.map (fun kv => encode_str (fst kv) +:+ ": " +:+ encode (S level) (snd kv))
                   items)
          +:+ newline_indent level +:+ "}"
  end.

Definition json_dumps_indent2 (v : json) : string := encode 0 v.

(** [d[k]] on a JSON dictionary: the first entry under the key. *)
Fixpoint dict_lookup (k : string) (items : list (string * json)) : option json :=
  match items with
  | [] => None
  | (k', v) :: rest => if String.eqb k k' then Some v else dict_lookup k rest
  end.

Definition json_get (k : string) (v : json) : option json :=
  match v with
  | JDict items => dict_lookup k items
  | _ => None
  end.

(** ** Exceptions and results *)

Record exn := Exception { exn_type : string; exn_msg : string }.

Inductive result (A : Type) :=
| Return (a : A)
| Raise (e : exn).
Arguments Return {A} a.
Arguments Raise {A} e.

Definition RuntimeError (msg : string) : exn := Exception "RuntimeError" msg.
Definition FileNotFoundError (p : Path) : exn :=
  Exception "FileNotFoundError"
    ("[Errno 2] No such file or directory: '" +:+ path_str p +:+ "'").

(** ** Messages of the agent's reply

    A streamed message is inspected through [type(msg).__name__] and, for an
    assistant message, through the items of [msg.content]; an item may or may
    not carry a [text] attribute ([hasattr(content, "text")]). *)

Record ContentItem := { item_class : string; text : option string }.

Record Message := { type_name : string; content : list ContentItem }.

(** What iterating [client.receive_response()] produces, for a reply that
    ends: the messages in arrival order, closed by the end of the stream or by
    the exception the iterator raises. *)
Inductive Stream :=
| SEnd
| SRaise (e : exn)
| SYield (msg : Message) (rest : Stream).

Fixpoint stream_of_list (msgs : list Message) : Stream :=
  match msgs with
  | [] => SEnd
  | m :: rest => SYield m (stream_of_list rest)
  end.

(** The bundle given to [ClaudeAgentOptions]. *)
Record ClaudeAgentOptions := {
  model : string;
  system_prompt : string;
  allowed_tools : list string;
  max_turns : nat;
  cwd : string;
  settings : string
}.

(** ** The world, the log of calls and the monad of effects *)

(** The calls that leave the module. *)
Inductive Call :=
| CRequireAuth
| CWrite (p : Path) (data : string)
| CExists (p : Path)
| CUnlink (p : Path)
| CNewClient (options : ClaudeAgentOptions)
| CEnter
| CQuery (prompt : string)
| CReceive
| CExit (exc : option exn).

Section Runtime.
Context (Ext : Type).

(** The files by path, and whatever else the collaborators keep ([ext]):
    credentials, the agent's session, other processes. *)
Record World := { files : gmap Path string; ext : Ext }.

(** A call, and the world in which it was made. *)
Record Event := { call : Call; before : World }.

(** A computation ends with a value or an exception, in a new world, and
    has made the calls of its log, oldest first. *)
Definition M (A : Type) : Type := World -> result A * World * list Event.

Definition ret {A} (a : A) : M A := fun w => (Return a, w, []).

Definition raise {A} (e : exn) : M A := fun w => (Raise e, w, []).

Definition bind {A B} (m : M A) (k : A -> M B) : M B :=
  fun w =>
    match m w with
    | (Return a, w1, t1) =>
        match k a w1 with
        | (r, w2, t2) => (r, w2, (t1 ++ t2)%list)
        end
    | (Raise e, w1, t1) => (Raise e, w1, t1)
    end.

(** A call to a collaborator: one event, then whatever the collaborator
    does to the world. *)
Definition external {A} (c : Call) (op : World -> result A * World) : M A :=
  fun w =>
    match op w with
    | (r, w1) => (r, w1, [{| call := c; before := w |}])
    end.

(** [try: body finally: handler]: the handler runs on every exit of the
    body; its own exception, if any, replaces the outcome of the body. *)
Definition try_finally {A} (body : M A) (handler : M unit) : M A :=
  fun w =>
    match body w with
    | (r, w1, t1) =>
        match handler w1 with
        | (Return _, w2, t2) => (r, w2, (t1 ++ t2)%list)
        | (Raise e, w2, t2) => (Raise e, w2, (t1 ++ t2)%list)
        end
    end.

(** How a statement block ends when it does not raise: by running off its
    end, or by a [return] statement. *)
Inductive completion (A : Type) :=
| Normal
| Returned (a : A).
Arguments Normal {A}.
Arguments Returned {A} a.

(** [async with mgr: body], where the body ends in a [return] statement:
    [__aenter__] first (if it raises, neither the body nor [__aexit__]
    runs); [__aexit__] gets the exception of the body, or [None], and a
    true result swallows that exception. *)
Definition async_with {A} (enter : M unit) (leave : option exn -> M bool)
    (body : M A) : M (completion A) :=
  bind enter (fun _ =>
    fun w =>
      match body w with
      | (Return a, w1, t1) =>
          match leave None w1 with
          | (Return _, w2, t2) => (Return (Returned a), w2, (t1 ++ t2)%list)
          | (Raise e, w2, t2) => (Raise e, w2, (t1 ++ t2)%list)
          end
      | (Raise e, w1, t1) =>
          match leave (Some e) w1 with
          | (Return true, w2, t2) => (Return Normal, w2, (t1 ++ t2)%list)
          | (Return false, w2, t2) => (Raise e, w2, (t1 ++ t2)%list)
          | (Raise e', w2, t2) => (Raise e', w2, (t1 ++ t2)%list)
          end
      end).

(** *** The file system *)

Definition present (p : Path) (w : World) : Prop := is_Some (files w !! p).
Definition absent (p : Path) (w : World) : Prop := files w !! p = None.

(** [with open(p, "w") as f: f.write(data)]: [open] raises where the
    operating system refuses it ([fails]: a missing or unwritable directory,
    a file that may not be written), and nothing is written then; otherwise
    the file is created or truncated and holds the data. *)
Definition write_text (fails : World -> option exn) (p : Path) (data : string) : M unit :=
  external (CWrite p data)
    (fun w =>
       match fails w with
       | Some e => (Raise e, w)
       | None => (Return tt, {| files := <[p := data]> (files w); ext := ext w |})
       end).

(** [p.exists()]. *)
Definition path_exists (p : Path) : M bool :=
  external (CExists p)
    (fun w => (Return (bool_decide (is_Some (files w !! p))), w)).

(** [p.unlink()]: a missing file is an error, and the operating system may
    refuse to remove a file that is there ([fails]); the file stays then. *)
Definition unlink (fails : World -> option exn) (p : Path) : M unit :=
  external (CUnlink p)
    (fun w =>
       match files w !! p with
       | Some _ =>
           match fails w with
           | Some e => (Raise e, w)
           | None => (Return tt, {| files := delete p (files w); ext := ext w |})
           end
       | None => (Raise (FileNotFoundError p), w)
       end).
End Runtime.

Arguments files {Ext} _.
Arguments ext {Ext} _.
Arguments call {Ext} _.
Arguments before {Ext} _.
Arguments ret {Ext A} a.
Arguments raise {Ext A} e.
Arguments bind {Ext A B} m k.
Arguments external {Ext A} c op.
Arguments try_finally {Ext A} body handler.
Arguments Normal {A}.
Arguments Returned {A} a.
Arguments async_with {Ext A} enter leave body.
Arguments present {Ext} p w.
Arguments absent {Ext} p w.
Arguments write_text {Ext} fails p data.
Arguments path_exists {Ext} p.
Arguments unlink {Ext} fails p.

Notation "x <- m ;; k" := (bind m (fun x => k))
  (at level 100, m at next level, right associativity).

(** The outcome, the final world and the log of a run. *)
Definition outcome {Ext A} (r : result A * World Ext * list (Event Ext)) : result A :=
  fst (fst r).
Definition final {Ext A} (r : result A * World Ext * list (Event Ext)) : World Ext :=
  snd (fst r).
Definition log {Ext A} (r : result A * World Ext * list (Event Ext)) : list (Event Ext) :=
  snd r.

(** ** The collaborators

    The module-level flag set by the guarded import, the credential check of
    [core.auth], the model table of [phase_config], [Path.resolve] and the
    agent SDK's client: its constructor, the two ends of its [async with]
    session, the submission of a prompt and the stream of the reply.  The SDK
    runs an agent over the project directory, so its operations may change
    the files as well as the rest of the world.  The operating system decides
    whether a path can be opened for writing and whether a file that is
    there can be removed, and with which error it refuses. *)
Record Collaborators (Ext Client : Type) := {
  open_error : Path -> World Ext -> option exn;
  unlink_error : Path -> World Ext -> option exn;
  CLAUDE_SDK_AVAILABLE : bool;
  require_auth_token : World Ext -> result unit;
  resolve_model_id : string -> string;
  resolve : Path -> Path;
  ClaudeSDKClient : ClaudeAgentOptions -> World Ext -> result Client * World Ext;
  aenter : Client -> World Ext -> result unit * World Ext;
  query : Client -> string -> World Ext -> result unit * World Ext;
  receive_response : Client -> World Ext -> Stream * World Ext;
  aexit : Client -> option exn -> World Ext -> result bool * World Ext
}.
Arguments open_error {Ext Client} _ _ _.
Arguments unlink_error {Ext Client} _ _ _.
Arguments CLAUDE_SDK_AVAILABLE {Ext Client} _.
Arguments require_auth_token {Ext Client} _ _.
Arguments resolve_model_id {Ext Client} _ _.
Arguments resolve {Ext Client} _ _.
Arguments ClaudeSDKClient {Ext Client} _ _ _.
Arguments aenter {Ext Client} _ _ _.
Arguments query {Ext Client} _ _ _ _.
Arguments receive_response {Ext Client} _ _ _.
Arguments aexit {Ext Client} _ _ _ _.

(** ** Class constants *)

Module ClaudeAnalysisClient.

Definition DEFAULT_MODEL : string := "sonnet".
Definition ALLOWED_TOOLS : list string := ["Read"; "Glob"; "Grep"].
Definition MAX_TURNS : nat := 50.

Definition LANGUAGE_NAMES : gmap string string :=
  <["en" := "English"]> (<["ko" := "Korean"]> (<["fr" := "French"]> ∅)).

(** [d.get(key, default)]. *)
Definition dict_get (d : gmap string string) (key dflt : string) : string :=
  default dflt (d !! key).

Definition SETTINGS_NAME : string := ".claude_ai_analyzer_settings.json".

(** The dictionary literal of [_create_settings_file]. *)
Definition settings_value : json :=
  JDict [
    ("sandbox", JDict [("enabled", JBool true); ("autoAllowBashIfSandboxed", JBool true)]);
    ("permissions",
      JDict [
        ("defaultMode", JStr "acceptEdits");
        ("allow", JList [JStr "Read(./**)"; JStr "Glob(./**)"; JStr "Grep(./**)"])
      ])
  ].

(** *** The system prompt *)

(** The f-string assigned to [language_instruction] in the guarded branch. *)
Definition language_clause (language_name : string) : string :=
  newline +:+ newline +:+
  "**IMPORTANT LANGUAGE REQUIREMENT**: Write all analysis descriptions, " +:+
  "recommendations, and explanations in **" +:+ language_name +:+ "**. " +:+
  "JSON keys must remain in English, but all human-readable content values " +:+
  "must be in " +:+ language_name +:+ ".".

(** [language_instruction] after the [if self.language and self.language != "en"]
    statement; [None] is Python's [None], which is falsy like the empty string. *)
Definition language_instruction (language : option string) : string :=
  match language with
  | None => EmptyString
  | Some code =>
      if negb (String.eqb code EmptyString) && negb (String.eqb code "en") then
        let language_name := dict_get LANGUAGE_NAMES code code in
        language_clause language_name
      else EmptyString
  end.

(** The prompt up to [{language_instruction}]; [dir] is
    [str(self.project_dir.resolve())]. *)
Definition base_prompt (dir : string) : string :=
  "You are a senior software architect analyzing this codebase. " +:+
  "Your working directory is: " +:+ dir +:+ newline +:+
  "Use Read, Grep, and Glob tools to analyze actual code. " +:+
  "Output your analysis as valid JSON only.".

Definition build_system_prompt (dir : string) (language : option string) : string :=
  base_prompt dir +:+ language_instruction language.

(** *** The text of the reply *)

(** The inner loop over [msg.content]. *)
Fixpoint collect_content (items : list ContentItem) (response_text : string) : string :=
  match items with
  | [] => response_text
  | item :: rest =>
      match text item with
      | Some t => collect_content rest (response_text +:+ t)
      | None => collect_content rest response_text
      end
  end.

(** The [async for] loop of [_collect_response], with [response_text] as its
    accumulator. *)
Fixpoint collect_stream (s : Stream) (response_text : string) : result string :=
  match s with
  | SEnd => Return response_text
  | SRaise e => Raise e
  | SYield msg rest =>
      let msg_type := type_name msg in
      if String.eqb msg_type "AssistantMessage" then
        collect_stream rest (collect_content (content msg) response_text)
      else collect_stream rest response_text
  end.

(** *** The instance and its methods *)

Record Self := { project_dir : Path; language : option string }.

Section Methods.
Context {Ext Client : Type} (env : Collaborators Ext Client).

Definition _validate_oauth_token (self : Self) : M Ext unit :=
  external CRequireAuth (fun w => (require_auth_token env w, w)).

Definition __init__ (project_dir : Path) (language : option string) : M Ext Self :=
  if negb (CLAUDE_SDK_AVAILABLE env) then
    raise (RuntimeError
             "claude-agent-sdk not available. Install with: pip install claude-agent-sdk")
  else
    let self := {| project_dir := project_dir; language := language |} in
    _ <- _validate_oauth_token self ;;
    ret self.

Definition _create_settings_file (self : Self) : M Ext Path :=
  let settings := settings_value in
  let settings_file := path_div (project_dir self) SETTINGS_NAME in
  _ <- write_text (open_error env settings_file) settings_file
         (json_dumps_indent2 settings) ;;
  ret settings_file.

(** The argument of [ClaudeSDKClient(options=...)]. *)
Definition client_options (self : Self) (settings_file : Path) : ClaudeAgentOptions :=
  let system_prompt :=
    build_system_prompt (path_str (resolve env (project_dir self))) (language self) in
  {| model := resolve_model_id env DEFAULT_MODEL;
     system_prompt := system_prompt;
     allowed_tools := ALLOWED_TOOLS;
     max_turns := MAX_TURNS;
     cwd := path_str (resolve env (project_dir self));
     settings := path_str (resolve env settings_file) |}.

Definition _create_client (self : Self) (settings_file : Path) : M Ext Client :=
  let options := client_options self settings_file in
  external (CNewClient options) (ClaudeSDKClient env options).

Definition _collect_response (self : Self) (client : Client) : M Ext string :=
  external CReceive
    (fun w =>
       match receive_response env client w with
       | (s, w1) => (collect_stream s EmptyString, w1)
       end).

(** The [finally] block. *)
Definition cleanup (settings_file : Path) : M Ext unit :=
  found <- path_exists settings_file ;;
  if found : bool then unlink (unlink_error env settings_file) settings_file else ret tt.

(** The [try] block; a block left without [return] makes the coroutine
    return [None]. *)
Definition session (self : Self) (settings_file : Path) (prompt : string)
    : M Ext (option string) :=
  client <- _create_client self settings_file ;;
  completed <- async_with (external CEnter (aenter env client))
            (fun exc => external (CExit exc) (aexit env client exc))
            (_ <- external (CQuery prompt) (query env client prompt) ;;
             _collect_response self client) ;;
  ret (match completed with
       | Returned response_text => Some response_text
       | Normal => None
       end).

Definition run_analysis_query (self : Self) (prompt : string) : M Ext (option string) :=
  settings_file <- _create_settings_file self ;;
  try_finally (session self settings_file prompt) (cleanup settings_file).
End Methods.

End ClaudeAnalysisClient.

Import ClaudeAnalysisClient.

(** ** Definitions of the specification *)

(** The descriptor of an analysis: the fixed file name inside the project
    directory. *)
Definition descriptor (self : Self) : Path := path_div (project_dir self) SETTINGS_NAME.

Definition quoted (s : string) : string := dquote +:+ s +:+ dquote.

(** The text of the descriptor, line by line. *)
Definition descriptor_text : string :=
  join newline [
    "{";
    "  " +:+ quoted "sandbox" +:+ ": {";
    "    " +:+ quoted "enabled" +:+ ": true,";
    "    " +:+ quoted "autoAllowBashIfSandboxed" +:+ ": true";
    "  },";
    "  " +:+ quoted "permissions" +:+ ": {";
    "    " +:+ quoted "defaultMode" +:+ ": " +:+ quoted "acceptEdits" +:+ ",";
    "    " +:+ quoted "allow" +:+ ": [";
    "      " +:+ quoted "Read(./**)" +:+ ",";
    "      " +:+ quoted "Glob(./**)" +:+ ",";
    "      " +:+ quoted "Grep(./**)";
    "    ]";
    "  }";
    "}"
  ].

Definition is_assistant (msg : Message) : bool :=
  String.eqb (type_name msg) "AssistantMessage".

(** The texts of the content items that carry one, in order. *)
Definition item_texts (items : list ContentItem) : list string := omap text items.

(** The texts of the assistant messages of a reply, in arrival order. *)
Definition assistant_texts (msgs : list Message) : list string :=
  flat_map (fun msg => item_texts (content msg)) (List.filter is_assistant msgs).

Definition concat_all (l : list string) : string := foldr String.append EmptyString l.

(** What the specification says [_collect_response] returns. *)
Definition assistant_text (msgs : list Message) : string :=
  concat_all (assistant_texts msgs).

(** An assistant message with one text block, and messages that carry no
    assistant text. *)
Definition assistant_says (t : string) : Message :=
  {| type_name := "AssistantMessage";
     content := [{| item_class := "TextBlock"; text := Some t |}] |}.

(** [sub in s], decided. *)
Fixpoint is_substring (sub s : string) : bool :=
  String.prefix sub s ||
  match s with
  | EmptyString => false
  | String _ rest => is_substring sub rest
  end.

(** The calls by kind, and the order in which one analysis may make them. *)
Inductive Kind :=
| KAuth | KWrite | KExists | KUnlink | KNew | KEnter | KQuery | KReceive | KExit.

Global Instance Kind_eq_dec : EqDecision Kind.
Proof. solve_decision. Defined.

Definition kind (c : Call) : Kind :=
  match c with
  | CRequireAuth => KAuth
  | CWrite _ _ => KWrite
  | CExists _ => KExists
  | CUnlink _ => KUnlink
  | CNewClient _ => KNew
  | CEnter => KEnter
  | CQuery _ => KQuery
  | CReceive => KReceive
  | CExit _ => KExit
  end.

Definition analysis_order : list Kind :=
  [KWrite; KNew; KEnter; KQuery; KReceive; KExit; KExists; KUnlink].

(** The calls into the agent SDK. *)
Definition is_agent_call (c : Call) : bool :=
  match c with
  | CNewClient _ | CEnter | CQuery _ | CReceive | CExit _ => true
  | _ => false
  end.

Definition is_write (c : Call) : bool :=
  match c with
  | CWrite _ _ => true
  | _ => false
  end.

Definition is_unlink (c : Call) : bool :=
  match c with
  | CUnlink _ => true
  | _ => false
  end.

Section Contracts.
Context {Ext Client : Type} (env : Collaborators Ext Client).

(** An operation of a collaborator that leaves a file in place. *)
Definition keeps {A} (p : Path) (op : World Ext -> A * World Ext) : Prop :=
  forall w, present p w -> present p (snd (op w)).

(** No operation of the agent SDK removes the file at [p]. *)
Record agent_keeps (p : Path) : Prop := {
  keeps_new : forall o, keeps p (ClaudeSDKClient env o);
  keeps_enter : forall c, keeps p (aenter env c);
  keeps_query : forall c s, keeps p (query env c s);
  keeps_receive : forall c, keeps p (receive_response env c);
  keeps_exit : forall c exc, keeps p (aexit env c exc)
}.

(** The session's [__aexit__] ends the session and lets the exception of
    the block pass: it neither raises nor returns a true value. *)
Definition close_passes : Prop :=
  forall c exc w, exists w', aexit env c exc w = (Return false, w').

(** A computation that keeps [P]: started where [P] holds, it makes each
    of its calls where [P] holds, and ends where [P] holds. *)
Definition safe (P : World Ext -> Prop) {A} (m : M Ext A) : Prop :=
  forall w, P w ->
    P (final (m w)) /\ Forall (fun ev => P (before ev)) (log (m w)).

(** The world once the descriptor is written. *)
Definition written (self : Self) (w : World Ext) : World Ext :=
  {| files := <[descriptor self := descriptor_text]> (files w); ext := ext w |}.

(** The stages of the session at which an exception [e] can come up, in a
    world [w] where the descriptor is written: the construction of the
    client, the opening of the session, the submission of the prompt, the
    collection of the reply. *)
Inductive raised_in_session (self : Self) (prompt : string) (w : World Ext) (e : exn)
    : Prop :=
| raised_new w1 :
    ClaudeSDKClient env (client_options env self (descriptor self)) w = (Raise e, w1) ->
    raised_in_session self prompt w e
| raised_enter c w1 w2 :
    ClaudeSDKClient env (client_options env self (descriptor self)) w = (Return c, w1) ->
    aenter env c w1 = (Raise e, w2) ->
    raised_in_session self prompt w e
| raised_query c w1 u w2 w3 :
    ClaudeSDKClient env (client_options env self (descriptor self)) w = (Return c, w1) ->
    aenter env c w1 = (Return u, w2) ->
    query env c prompt w2 = (Raise e, w3) ->
    raised_in_session self prompt w e
| raised_stream c w1 u w2 u' w3 s w4 :
    ClaudeSDKClient env (client_options env self (descriptor self)) w = (Return c, w1) ->
    aenter env c w1 = (Return u, w2) ->
    query env c prompt w2 = (Return u', w3) ->
    receive_response env c w3 = (s, w4) ->
    collect_stream s EmptyString = Raise e ->
    raised_in_session self prompt w e.
End Contracts.

(** ** Scripted collaborators

    A world whose [ext] is the stored credential, if any, and an agent SDK
    that follows a script: which of its operations raise, what it streams
    back, and whether the agent removes the descriptor while it answers. *)

Definition ValueError (msg : string) : exn := Exception "ValueError" msg.

Record Script := {
  new_raises : option exn;
  enter_raises : option exn;
  query_raises : option exn;
  reply : Stream;
  removes : option Path
}.

Definition scripted_step (err : option exn) (w : World (option string))
    : result unit * World (option string) :=
  match err with
  | Some e => (Raise e, w)
  | None => (Return tt, w)
  end.

Definition scripted_reply (sc : Script) (w : World (option string))
    : Stream * World (option string) :=
  match removes sc with
  | Some p => (reply sc, {| files := delete p (files w); ext := ext w |})
  | None => (reply sc, w)
  end.

Definition scripted (sc : Script) : Collaborators (option string) unit := {|
  open_error := fun _ _ => None;
  unlink_error := fun _ _ => None;
  CLAUDE_SDK_AVAILABLE := true;
  require_auth_token := fun w =>
    match ext w with
    | Some _ => Return tt
    | None => Raise (ValueError "No OAuth token found.")
    end;
  resolve_model_id := fun name => "claude-" +:+ name;
  resolve := fun p => p;
  ClaudeSDKClient := fun _ => scripted_step (new_raises sc);
  aenter := fun _ => scripted_step (enter_raises sc);
  query := fun _ _ => scripted_step (query_raises sc);
  receive_response := fun _ => scripted_reply sc;
  aexit := fun _ _ w => (Return false, w)
|}.

Definition repo : Path := ["/"; "repo"].

Definition empty_world (token : option string) : World (option string) :=
  {| files := ∅; ext := token |}.

Definition says_AB : Script := {|
  new_raises := None; enter_raises := None; query_raises := None;
  reply := stream_of_list [assistant_says "A"; assistant_says "B"];
  removes := None
|}.

Definition connection_lost : exn := Exception "CLIConnectionError" "connection lost".

(** The reply breaks off after a first assistant message. *)
Definition breaks_off : Script := {|
  new_raises := None; enter_raises := None; query_raises := None;
  reply := SYield (assistant_says "A") (SRaise connection_lost);
  removes := None
|}.

(** The descriptor of [repo] disappears while the agent answers. *)
Definition descriptor_vanishes : Script := {|
  new_raises := None; enter_raises := None; query_raises := None;
  reply := stream_of_list [assistant_says "A"; assistant_says "B"];
  removes := Some (path_div repo SETTINGS_NAME)
|}.

(** ** Replies, traces and further contracts *)

(** The messages a reply delivers, and the exception that ends it, if one
    does. *)
Fixpoint stream_messages (s : Stream) : list Message :=
  match s with
  | SEnd | SRaise _ => []
  | SYield msg rest => msg :: stream_messages rest
  end.

Fixpoint stream_end (s : Stream) : option exn :=
  match s with
  | SEnd => None
  | SRaise e => Some e
  | SYield _ rest => stream_end rest
  end.

(** The kinds of calls of a [try] block, by the stage it reaches: the
    construction fails, the opening fails, the submission fails (the session
    is closed), the reply is read (the session is closed). *)
Definition session_traces : list (list Kind) :=
  [ [KNew];
    [KNew; KEnter];
    [KNew; KEnter; KQuery; KExit];
    [KNew; KEnter; KQuery; KReceive; KExit] ].

(** The kinds of calls of a [finally] block. *)
Definition cleanup_traces : list (list Kind) :=
  [ [KExists; KUnlink]; [KExists] ].

Definition is_session_only (k : Kind) : bool :=
  match k with
  | KQuery | KReceive | KExit => true
  | _ => false
  end.

Section MoreContracts.
Context {Ext Client : Type} (env : Collaborators Ext Client).

(** Every operation of the agent SDK keeps [P]. *)
Record agent_preserves (P : World Ext -> Prop) : Prop := {
  preserves_new : forall o w, P w -> P (snd (ClaudeSDKClient env o w));
  preserves_enter : forall c w, P w -> P (snd (aenter env c w));
  preserves_query : forall c s w, P w -> P (snd (query env c s w));
  preserves_receive : forall c w, P w -> P (snd (receive_response env c w));
  preserves_exit : forall c exc w, P w -> P (snd (aexit env c exc w))
}.

(** The agent only reads: no operation of the SDK changes the files. *)
Definition agent_reads_only : Prop :=
  forall m, agent_preserves (fun w => files w = m).

(** A session whose [__aexit__] always raises [e]. *)
Definition close_raises (e : exn) : Prop :=
  forall c exc w, exists w', aexit env c exc w = (Raise e, w').

(** A session whose [__aexit__] always returns a true value. *)
Definition close_swallows : Prop :=
  forall c exc w, exists w', aexit env c exc w = (Return true, w').

(** The client [c] is constructed in [w] and its session opened, which
    leaves the world [w2]. *)
Definition opens (self : Self) (w : World Ext) (c : Client) (w2 : World Ext) : Prop :=
  exists w1 u,
    ClaudeSDKClient env (client_options env self (descriptor self)) w = (Return c, w1)
    /\ aenter env c w1 = (Return u, w2).

(** The block of the session raises [e] in [w2]: at the submission of the
    prompt or while the reply is collected. *)
Definition block_raises (c : Client) (prompt : string) (w2 : World Ext) (e : exn) : Prop :=
  (exists w3, query env c prompt w2 = (Raise e, w3))
  \/ (exists u w3 s w4,
        query env c prompt w2 = (Return u, w3)
        /\ receive_response env c w3 = (s, w4)
        /\ collect_stream s EmptyString = Raise e).

(** The construction of the client or the opening of its session raises
    [e]. *)
Definition fails_to_open (self : Self) (w : World Ext) (e : exn) : Prop :=
  (exists w1,
     ClaudeSDKClient env (client_options env self (descriptor self)) w = (Raise e, w1))
  \/ (exists c w1 w2,
        ClaudeSDKClient env (client_options env self (descriptor self)) w = (Return c, w1)
        /\ aenter env c w1 = (Raise e, w2)).
End MoreContracts.

(** A scripted SDK whose close follows a script of its own. *)
Definition scripted_close (sc : Script) (close : option exn -> result bool)
    : Collaborators (option string) unit := {|
  open_error := fun _ _ => None;
  unlink_error := fun _ _ => None;
  CLAUDE_SDK_AVAILABLE := true;
  require_auth_token := require_auth_token (scripted sc);
  resolve_model_id := resolve_model_id (scripted sc);
  resolve := resolve (scripted sc);
  ClaudeSDKClient := ClaudeSDKClient (scripted sc);
  aenter := aenter (scripted sc);
  query := query (scripted sc);
  receive_response := receive_response (scripted sc);
  aexit := fun _ exc w => (close exc, w)
|}.

(** The SDK is not installed. *)
Definition without_sdk : Collaborators (option string) unit := {|
  open_error := fun _ _ => None;
  unlink_error := fun _ _ => None;
  CLAUDE_SDK_AVAILABLE := false;
  require_auth_token := require_auth_token (scripted says_AB);
  resolve_model_id := resolve_model_id (scripted says_AB);
  resolve := resolve (scripted says_AB);
  ClaudeSDKClient := ClaudeSDKClient (scripted says_AB);
  aenter := aenter (scripted says_AB);
  query := query (scripted says_AB);
  receive_response := receive_response (scripted says_AB);
  aexit := aexit (scripted says_AB)
|}.

Definition cli_not_found : exn := Exception "CLINotFoundError" "claude not found".
Definition disconnect_failed : exn := Exception "ProcessError" "disconnect failed".

(** The session cannot be opened. *)
Definition refuses_connection : Script := {|
  new_raises := None; enter_raises := Some cli_not_found; query_raises := None;
  reply := SEnd;
  removes := None
|}.

(** A reply without assistant text: a result message, and an assistant
    message that only uses a tool. *)
Definition says_nothing : Script := {|
  new_raises := None; enter_raises := None; query_raises := None;
  reply :=
    stream_of_list
      [ {| type_name := "AssistantMessage";
           content := [{| item_class := "ToolUseBlock"; text := None |}] |};
        {| type_name := "ResultMessage";
           content := [{| item_class := "TextBlock"; text := Some "done" |}] |} ];
  removes := None
|}.

(** A world in which the descriptor path of [repo] already holds a file. *)
Definition occupied_world : World (option string) :=
  {| files := <[path_div repo SETTINGS_NAME := "mine"]> (<[["/"; "repo"; "a.py"] := "x"]> ∅);
     ext := Some "token" |}.

(** ** File operations that fail *)

Section FileContracts.
Context {Ext Client : Type} (env : Collaborators Ext Client).

(** The descriptor of [self] can be opened for writing in [w]. *)
Definition write_returns (self : Self) (w : World Ext) : Prop :=
  open_error env (descriptor self) w = None.

(** The [finally] block, started in [w], ends without an exception: the
    file at [p] is not there, or its removal goes through. *)
Definition cleanup_returns (p : Path) (w : World Ext) : Prop :=
  outcome (cleanup env p w) = Return tt.
End FileContracts.

Definition permission_denied : exn :=
  Exception "PermissionError" "[Errno 13] Permission denied".

(** A scripted SDK on an operating system that refuses to open any file for
    writing, or to remove any file, with the given errors. *)
Definition scripted_os (sc : Script) (no_open no_unlink : option exn)
    : Collaborators (option string) unit := {|
  open_error := fun _ _ => no_open;
  unlink_error := fun _ _ => no_unlink;
  CLAUDE_SDK_AVAILABLE := true;
  require_auth_token := require_auth_token (scripted sc);
  resolve_model_id := resolve_model_id (scripted sc);
  resolve := resolve (scripted sc);
  ClaudeSDKClient := ClaudeSDKClient (scripted sc);
  aenter := aenter (scripted sc);
  query := query (scripted sc);
  receive_response := receive_response (scripted sc);
  aexit := aexit (scripted sc)
|}.

(** * Properties *)

(** ** Strings *)

Lemma append_cons (c : ascii) (s t : string) : String c s +:+ t = String c (s +:+ t).
Proof. reflexivity. Qed.

Lemma append_nil_l (s : string) : EmptyString +:+ s = s.
Proof. reflexivity. Qed.

Lemma append_nil_r (s : string) : s +:+ EmptyString = s.
Proof. induction s as [|c s IH]; [reflexivity | now rewrite append_cons, IH]. Qed.

Lemma append_assoc (s1 s2 s3 : string) : (s1 +:+ s2) +:+ s3 = s1 +:+ s2 +:+ s3.
Proof. induction s1 as [|c s1 IH]; [reflexivity | now rewrite !append_cons, IH]. Qed.

Lemma contains_refl (s : string) : contains s s.
Proof. exists EmptyString, EmptyString. now rewrite append_nil_l, append_nil_r. Qed.

Lemma contains_app_r (s1 s2 : string) : contains (s1 +:+ s2) s2.
Proof. exists s1, EmptyString. now rewrite append_nil_r. Qed.


Lemma prefix_app (sub post : string) : String.prefix sub (sub +:+ post) = true.
Proof.
  induction sub as [|c sub IH].
  - now destruct post.
  - rewrite append_cons. simpl. destruct (ascii_dec c c); [exact IH | congruence].
Qed.

(** The decision procedure finds every occurrence. *)
Lemma is_substring_complete (s sub : string) :
  contains s sub -> is_substring sub s = true.
Proof.
  intros (pre & post & ->).
  induction pre as [|c pre IH].
  - rewrite append_nil_l.
    assert (is_substring sub (sub +:+ post) = String.prefix sub (sub +:+ post) ||
              match sub +:+ post with
              | EmptyString => false
              | String _ rest => is_substring sub rest
              end) as -> by (destruct (sub +:+ post); reflexivity).
    now rewrite prefix_app.
  - rewrite append_cons. simpl. rewrite IH. apply orb_true_r.
Qed.

(** ** The text of the reply *)

Lemma collect_content_app (items : list ContentItem) (acc : string) :
  collect_content items acc = acc +:+ concat_all (item_texts items).
Proof.
  revert acc. induction items as [|item items IH]; intros acc; simpl.
  - now rewrite append_nil_r.
  - unfold item_texts. simpl. destruct (text item) as [t|]; simpl.
    + rewrite IH. unfold item_texts. now rewrite append_assoc.
    + apply IH.
Qed.

Lemma concat_all_app (l1 l2 : list string) :
  concat_all (l1 ++ l2) = concat_all l1 +:+ concat_all l2.
Proof.
  induction l1 as [|s l1 IH]; simpl; [reflexivity |].
  now rewrite IH, append_assoc.
Qed.

Lemma collect_stream_list (msgs : list Message) (acc : string) :
  collect_stream (stream_of_list msgs) acc = Return (acc +:+ assistant_text msgs).
Proof.
  revert acc. induction msgs as [|msg msgs IH]; intros acc; simpl.
  - unfold assistant_text. simpl. now rewrite append_nil_r.
  - unfold assistant_text, assistant_texts. simpl.
    fold (is_assistant msg). destruct (is_assistant msg); simpl.
    + rewrite IH, collect_content_app, concat_all_app, append_assoc. reflexivity.
    + apply IH.
Qed.

(** A reply whose collection returns has ended cleanly. *)
Lemma collect_stream_return (s : Stream) (acc response_text : string) :
  collect_stream s acc = Return response_text ->
  exists msgs, s = stream_of_list msgs.
Proof.
  revert acc. induction s as [|e|msg rest IH]; intros acc H; simpl in H.
  - now exists [].
  - discriminate.
  - destruct (String.eqb (type_name msg) "AssistantMessage");
      apply IH in H as [msgs ->]; now exists (msg :: msgs).
Qed.

(** Messages that are not assistant messages add nothing. *)
Lemma assistant_text_filter (msgs : list Message) :
  assistant_text (List.filter is_assistant msgs) = assistant_text msgs.
Proof.
  unfold assistant_text, assistant_texts. f_equal. f_equal.
  induction msgs as [|m msgs IH]; simpl; [reflexivity |].
  destruct (is_assistant m) eqn:E; simpl; [rewrite E; now f_equal | exact IH].
Qed.

(** Content items without a text attribute add nothing. *)
Lemma item_texts_no_text (cls : string) (items : list ContentItem) :
  item_texts ({| item_class := cls; text := None |} :: items) = item_texts items.
Proof. reflexivity. Qed.

(** C3: for every finite reply that ends cleanly, [_collect_response] returns
    the concatenation, in arrival order, of the texts of the content items of
    the messages whose type is [AssistantMessage]; other messages and items
    without text add nothing; assistant messages "A" and "B" give "AB". *)
Theorem collect_response_assistant_text {Ext Client : Type}
    (env : Collaborators Ext Client) (self : Self) (client : Client)
    (w w' : World Ext) (msgs : list Message) :
  receive_response env client w = (stream_of_list msgs, w') ->
  outcome (_collect_response env self client w) = Return (assistant_text msgs)
  /\ assistant_text msgs
     = concat_all (flat_map (fun msg => omap text (content msg))
                     (List.filter (fun msg => String.eqb (type_name msg) "AssistantMessage")
                        msgs))
  /\ collect_stream (stream_of_list [assistant_says "A"; assistant_says "B"]) EmptyString
     = Return "AB".
Proof.
  intros Hrecv. split; [| split; reflexivity].
  unfold _collect_response, external, outcome. rewrite Hrecv. simpl.
  now rewrite collect_stream_list, append_nil_l.
Qed.

(** ** The system prompt *)


Lemma language_instruction_clause (code : string) :
  code <> EmptyString -> code <> "en" ->
  language_instruction (Some code) = language_clause (dict_get LANGUAGE_NAMES code code).
Proof.
  intros Hne Hen. unfold language_instruction.
  apply String.eqb_neq in Hne, Hen. now rewrite Hne, Hen.
Qed.

Lemma language_clause_names (name : string) : contains (language_clause name) name.
Proof.
  unfold language_clause.
  exists (newline +:+ newline +:+
          "**IMPORTANT LANGUAGE REQUIREMENT**: Write all analysis descriptions, " +:+
          "recommendations, and explanations in **").
  eexists. rewrite !append_assoc. reflexivity.
Qed.

Lemma system_prompt_options {Ext Client : Type} (env : Collaborators Ext Client)
    (self : Self) (settings_file : Path) :
  system_prompt (client_options env self settings_file)
  = base_prompt (path_str (resolve env (project_dir self)))
    +:+ language_instruction (language self).
Proof. reflexivity. Qed.

(** C4, as the code has it: for every non-empty language code other than
    "en", the system prompt ends with the language clause, which names the
    display name the code resolves to; for "en" nothing follows the base
    prompt. *)
Theorem system_prompt_language_clause {Ext Client : Type}
    (env : Collaborators Ext Client) (self : Self) (settings_file : Path)
    (code : string) :
  language self = Some code ->
  code <> EmptyString ->
  (code <> "en" ->
     let name := dict_get LANGUAGE_NAMES code code in
     system_prompt (client_options env self settings_file)
     = base_prompt (path_str (resolve env (project_dir self))) +:+ language_clause name
     /\ contains (system_prompt (client_options env self settings_file))
          (language_clause name)
     /\ contains (language_clause name) name)
  /\ (code = "en" ->
      language_instruction (language self) = EmptyString
      /\ system_prompt (client_options env self settings_file)
         = base_prompt (path_str (resolve env (project_dir self)))).
Proof.
  intros Hlang Hne. split.
  - intros Hen name. rewrite system_prompt_options, Hlang.
    rewrite (language_instruction_clause code Hne Hen). fold name.
    repeat split; [apply contains_app_r | apply language_clause_names].
  - intros ->. rewrite system_prompt_options, Hlang. split; [reflexivity |].
    apply append_nil_r.
Qed.


(** C9: with the empty string, or with [None], as language the prompt gets
    no language clause, as with "en", although neither equals "en". *)
Theorem falsy_language_is_default {Ext Client : Type}
    (env : Collaborators Ext Client) (dir settings_file : Path) :
  let prompt_for lang :=
    system_prompt
      (client_options env {| project_dir := dir; language := lang |} settings_file) in
  language_instruction (Some EmptyString) = EmptyString
  /\ language_instruction None = EmptyString
  /\ prompt_for (Some EmptyString) = prompt_for (Some "en")
  /\ prompt_for None = prompt_for (Some "en")
  /\ prompt_for (Some "en") = base_prompt (path_str (resolve env dir))
  /\ Some EmptyString <> Some "en"
  /\ @None string <> Some "en".
Proof.
  intros prompt_for. unfold prompt_for. rewrite !system_prompt_options. simpl.
  repeat split; try reflexivity; try discriminate.
  apply append_nil_r.
Qed.

(** C4 as stated fails at the empty code: it differs from "en", and the
    prompt built for it is the one built for "en", without the clause. *)
Lemma empty_language_code_gets_no_clause :
  let env := scripted says_AB in
  let prompt_for code :=
    system_prompt
      (client_options env {| project_dir := repo; language := Some code |}
         (path_div repo SETTINGS_NAME)) in
  EmptyString <> "en"
  /\ prompt_for EmptyString = prompt_for "en"
  /\ ~ contains (prompt_for EmptyString)
         (language_clause (dict_get LANGUAGE_NAMES EmptyString EmptyString))
  /\ is_substring "LANGUAGE REQUIREMENT" (prompt_for EmptyString) = false.
Proof.
  intros env prompt_for. split; [discriminate |]. split; [reflexivity |]. split.
  - intros H. apply is_substring_complete in H. vm_compute in H. discriminate.
  - vm_compute. reflexivity.
Qed.

Lemma system_prompt_language_clause_witness :
  let env := scripted says_AB in
  let self := {| project_dir := repo; language := Some "ko" |} in
  contains (system_prompt (client_options env self (descriptor self)))
    (language_clause "Korean")
  /\ contains (language_clause "Korean") "Korean".
Proof.
  intros env self.
  destruct (system_prompt_language_clause env self (descriptor self) "ko")
    as [Hclause _]; [reflexivity | discriminate |].
  destruct Hclause as (_ & Hin & Hname); [discriminate |].
  split; [exact Hin | exact Hname].
Defined.


Lemma collect_response_witness :
  outcome (_collect_response (scripted says_AB)
             {| project_dir := repo; language := Some "en" |} tt (empty_world None))
  = Return "AB".
Proof.
  apply (collect_response_assistant_text (scripted says_AB)
           {| project_dir := repo; language := Some "en" |} tt
           (empty_world None) (empty_world None)
           [assistant_says "A"; assistant_says "B"]).
  reflexivity.
Defined.

(** ** The descriptor and the client's configuration *)

Lemma settings_text : json_dumps_indent2 settings_value = descriptor_text.
Proof. vm_compute. reflexivity. Qed.

Lemma create_settings_file_eq {Ext Client : Type} (env : Collaborators Ext Client)
    (self : Self) (w : World Ext) :
  write_returns env self w ->
  _create_settings_file env self w
  = (Return (descriptor self), written self w,
     [{| call := CWrite (descriptor self) descriptor_text; before := w |}]).
Proof.
  intros Hopen. unfold write_returns in Hopen.
  unfold _create_settings_file, write_text, external, bind, ret, written.
  fold (descriptor self). now rewrite Hopen, settings_text.
Qed.

(** When [open] raises, its error is the outcome and no file changes. *)
Lemma create_settings_file_fails {Ext Client : Type} (env : Collaborators Ext Client)
    (self : Self) (w : World Ext) (e : exn) :
  open_error env (descriptor self) w = Some e ->
  _create_settings_file env self w
  = (Raise e, w, [{| call := CWrite (descriptor self) descriptor_text; before := w |}]).
Proof.
  intros Hopen.
  unfold _create_settings_file, write_text, external, bind, ret.
  fold (descriptor self). now rewrite Hopen, settings_text.
Qed.

(** C7, as the code has it: when the path can be opened for writing,
    [_create_settings_file] writes, over whatever the path held, the file
    [.claude_ai_analyzer_settings.json] of the project directory; its text is
    the schema with the sandbox enabled, bash allowed inside the sandbox, the
    default mode [acceptEdits] and the three read-only rules over the project
    subtree, and no other file changes. *)
Theorem create_settings_file_writes_descriptor {Ext Client : Type}
    (env : Collaborators Ext Client) (self : Self) (w : World Ext) :
  let p := path_div (project_dir self) ".claude_ai_analyzer_settings.json" in
  let r := _create_settings_file env self w in
  open_error env p w = None ->
  outcome r = Return p
  /\ map call (log r) = [CWrite p descriptor_text]
  /\ files (final r) !! p = Some descriptor_text
  /\ (forall q, q <> p -> files (final r) !! q = files w !! q)
  /\ ext (final r) = ext w
  /\ json_dumps_indent2 settings_value = descriptor_text
  /\ json_get "sandbox" settings_value
     = Some (JDict [("enabled", JBool true); ("autoAllowBashIfSandboxed", JBool true)])
  /\ (json_get "permissions" settings_value ≫= json_get "defaultMode")
     = Some (JStr "acceptEdits")
  /\ (json_get "permissions" settings_value ≫= json_get "allow")
     = Some (JList [JStr "Read(./**)"; JStr "Glob(./**)"; JStr "Grep(./**)"]).
Proof.
  intros p r Hopen. unfold r. rewrite (create_settings_file_eq env self w Hopen).
  unfold outcome, final, log, written, descriptor. simpl. fold p.
  split; [reflexivity |]. split; [reflexivity |].
  split; [apply lookup_insert_eq |].
  split; [intros q Hq; now apply lookup_insert_ne |].
  split; [reflexivity |]. split; [apply settings_text |].
  split; [reflexivity |]. split; reflexivity.
Qed.

Lemma create_settings_file_writes_descriptor_witness :
  let self := {| project_dir := repo; language := Some "en" |} in
  let r := _create_settings_file (scripted says_AB) self occupied_world in
  files occupied_world !! descriptor self = Some "mine"
  /\ outcome r = Return (descriptor self)
  /\ files (final r) !! descriptor self = Some descriptor_text.
Proof.
  intros self r. split; [reflexivity |].
  destruct (create_settings_file_writes_descriptor (scripted says_AB) self
              occupied_world eq_refl) as (Hout & _ & Hfile & _).
  split; [exact Hout | exact Hfile].
Defined.

(** C7 as stated fails where the descriptor cannot be opened for writing:
    the error of [open] is the outcome and no file is written. *)
Lemma unwritable_directory_gets_no_descriptor :
  let env := scripted_os says_AB (Some permission_denied) None in
  let self := {| project_dir := repo; language := Some "en" |} in
  let r := _create_settings_file env self (empty_world (Some "token")) in
  outcome r = Raise permission_denied
  /\ files (final r) !! descriptor self = None
  /\ final r = empty_world (Some "token").
Proof. intros env self r. repeat split. Qed.

(** ** Computations that keep a property of the world *)

Section Safe.
Context {Ext : Type} (P : World Ext -> Prop).

Lemma safe_ret {A} (a : A) : safe P (ret a).
Proof. intros w HP. split; [exact HP | constructor]. Qed.

Lemma safe_external {A} (c : Call) (op : World Ext -> result A * World Ext) :
  (forall w, P w -> P (snd (op w))) -> safe P (external c op).
Proof.
  intros Hop w HP. unfold external, final, log.
  specialize (Hop w HP). destruct (op w) as [r w1]. simpl in *.
  split; [exact Hop | repeat constructor; exact HP].
Qed.

Lemma safe_bind {A B} (m : M Ext A) (k : A -> M Ext B) :
  safe P m -> (forall a, safe P (k a)) -> safe P (bind m k).
Proof.
  intros Hm Hk w HP. unfold bind, final, log.
  destruct (Hm w HP) as [Hw1 Ht1]. unfold final, log in Hw1, Ht1.
  destruct (m w) as [[[a|e] w1] t1]; simpl in *; [| now split].
  destruct (Hk a w1 Hw1) as [Hw2 Ht2]. unfold final, log in Hw2, Ht2.
  destruct (k a w1) as [[r w2] t2]; simpl in *.
  split; [exact Hw2 | apply Forall_app; now split].
Qed.

Lemma safe_async_with {A} (enter : M Ext unit) (leave : option exn -> M Ext bool)
    (body : M Ext A) :
  safe P enter -> (forall exc, safe P (leave exc)) -> safe P body ->
  safe P (async_with enter leave body).
Proof.
  intros Henter Hleave Hbody. unfold async_with.
  apply safe_bind; [exact Henter |]. intros _ w HP. unfold final, log.
  destruct (Hbody w HP) as [Hw1 Ht1]. unfold final, log in Hw1, Ht1.
  destruct (body w) as [[[a|e] w1] t1]; simpl in *.
  - destruct (Hleave None w1 Hw1) as [Hw2 Ht2]. unfold final, log in Hw2, Ht2.
    destruct (leave None w1) as [[[b|e] w2] t2]; simpl in *;
      (split; [exact Hw2 | apply Forall_app; now split]).
  - destruct (Hleave (Some e) w1 Hw1) as [Hw2 Ht2]. unfold final, log in Hw2, Ht2.
    destruct (leave (Some e) w1) as [[[[|]|e'] w2] t2]; simpl in *;
      (split; [exact Hw2 | apply Forall_app; now split]).
Qed.
End Safe.

(** The [try] block keeps the descriptor in place when the agent does. *)
Lemma session_safe {Ext Client : Type} (env : Collaborators Ext Client)
    (self : Self) (p settings_file : Path) (prompt : string) :
  agent_keeps env p -> safe (present p) (session env self settings_file prompt).
Proof.
  intros [Hnew Henter Hquery Hreceive Hexit]. unfold session.
  apply safe_bind; [apply safe_external, Hnew |]. intros client.
  apply safe_bind; [| intros; apply safe_ret].
  apply safe_async_with.
  - apply safe_external, Henter.
  - intros exc. apply safe_external, Hexit.
  - apply safe_bind; [apply safe_external, Hquery |]. intros _.
    apply safe_external. intros w HP. specialize (Hreceive client w HP).
    now destruct (receive_response env client w).
Qed.

(** ** The [finally] block *)

Lemma cleanup_present {Ext Client : Type} (env : Collaborators Ext Client)
    (p : Path) (w : World Ext) :
  present p w ->
  unlink_error env p w = None ->
  cleanup env p w
  = (Return tt, {| files := delete p (files w); ext := ext w |},
     [{| call := CExists p; before := w |}; {| call := CUnlink p; before := w |}]).
Proof.
  intros [data Hdata] Hunlink.
  unfold cleanup, bind, path_exists, unlink, external. simpl. rewrite Hdata.
  rewrite bool_decide_eq_true_2 by (eexists; reflexivity). now rewrite Hdata, Hunlink.
Qed.

(** A removal that the operating system refuses: its error is the outcome
    of the block and the file stays. *)
Lemma cleanup_refused {Ext Client : Type} (env : Collaborators Ext Client)
    (p : Path) (w : World Ext) (e : exn) :
  present p w ->
  unlink_error env p w = Some e ->
  cleanup env p w
  = (Raise e, w,
     [{| call := CExists p; before := w |}; {| call := CUnlink p; before := w |}]).
Proof.
  intros [data Hdata] Hunlink.
  unfold cleanup, bind, path_exists, unlink, external. simpl. rewrite Hdata.
  rewrite bool_decide_eq_true_2 by (eexists; reflexivity). now rewrite Hdata, Hunlink.
Qed.

Lemma cleanup_absent {Ext Client : Type} (env : Collaborators Ext Client)
    (p : Path) (w : World Ext) :
  absent p w ->
  cleanup env p w = (Return tt, w, [{| call := CExists p; before := w |}]).
Proof.
  intros Hnone. unfold absent in Hnone.
  unfold cleanup, bind, path_exists, unlink, external, ret. simpl. rewrite Hnone.
  now rewrite bool_decide_eq_false_2 by (intros [? ?]; discriminate).
Qed.

Lemma present_or_absent {Ext : Type} (p : Path) (w : World Ext) :
  present p w \/ absent p w.
Proof.
  unfold present, absent. destruct (files w !! p); [left; eauto | now right].
Qed.

(** The three ways the [finally] block goes. *)
Lemma cleanup_cases {Ext Client : Type} (env : Collaborators Ext Client)
    (p : Path) (w : World Ext) :
  (present p w /\ unlink_error env p w = None
   /\ cleanup env p w
      = (Return tt, {| files := delete p (files w); ext := ext w |},
         [{| call := CExists p; before := w |}; {| call := CUnlink p; before := w |}]))
  \/ (exists e, present p w /\ unlink_error env p w = Some e
      /\ cleanup env p w
         = (Raise e, w,
            [{| call := CExists p; before := w |}; {| call := CUnlink p; before := w |}]))
  \/ (absent p w
      /\ cleanup env p w = (Return tt, w, [{| call := CExists p; before := w |}])).
Proof.
  destruct (present_or_absent p w) as [H|H].
  - destruct (unlink_error env p w) as [e|] eqn:Hunlink.
    + right. left. exists e. split; [exact H |]. split; [reflexivity |].
      now apply cleanup_refused.
    + left. split; [exact H |]. split; [reflexivity |]. now apply cleanup_present.
  - right. right. split; [exact H |]. now apply cleanup_absent.
Qed.

(** The [finally] block makes its calls in the world in which it starts:
    always the check, and the removal when the file is there. *)
Lemma cleanup_spec {Ext Client : Type} (env : Collaborators Ext Client)
    (p : Path) (w : World Ext) :
  Forall (fun ev => before ev = w) (log (cleanup env p w))
  /\ Forall (fun ev => call ev = CExists p \/ call ev = CUnlink p) (log (cleanup env p w))
  /\ (exists ev, ev ∈ log (cleanup env p w) /\ call ev = CExists p)
  /\ (map kind (map call (log (cleanup env p w))) = [KExists; KUnlink]
      \/ map kind (map call (log (cleanup env p w))) = [KExists])
  /\ (forall q, q <> p -> files (final (cleanup env p w)) !! q = files w !! q)
  /\ ext (final (cleanup env p w)) = ext w.
Proof.
  destruct (cleanup_cases env p w)
    as [(_ & _ & ->) | [(e & _ & _ & ->) | (_ & ->)]];
    unfold final, log; simpl.
  - split; [repeat constructor |].
    split; [repeat (apply List.Forall_cons; [auto |]); apply List.Forall_nil |].
    split; [exists {| call := CExists p; before := w |}; split; [set_solver | reflexivity] |].
    split; [now left |]. split; [| reflexivity].
    intros q Hq. now apply lookup_delete_ne.
  - split; [repeat constructor |].
    split; [repeat (apply List.Forall_cons; [auto |]); apply List.Forall_nil |].
    split; [exists {| call := CExists p; before := w |}; split; [set_solver | reflexivity] |].
    split; [now left |]. split; reflexivity.
  - split; [repeat constructor |].
    split; [repeat (apply List.Forall_cons; [auto |]); apply List.Forall_nil |].
    split; [exists {| call := CExists p; before := w |}; split; [set_solver | reflexivity] |].
    split; [now right |]. split; reflexivity.
Qed.

(** When the [finally] block returns, the file is gone and nothing else has
    changed. *)
Lemma cleanup_returns_spec {Ext Client : Type} (env : Collaborators Ext Client)
    (p : Path) (w : World Ext) :
  cleanup_returns env p w ->
  absent p (final (cleanup env p w))
  /\ files (final (cleanup env p w)) = delete p (files w)
  /\ ext (final (cleanup env p w)) = ext w.
Proof.
  unfold cleanup_returns.
  destruct (cleanup_cases env p w)
    as [(_ & _ & ->) | [(e & _ & _ & ->) | (Habsent & ->)]];
    unfold outcome, final, absent; simpl; intros H; try discriminate.
  - split; [apply lookup_delete_eq | now split].
  - split; [exact Habsent |]. split; [symmetry; now apply delete_id | reflexivity].
Qed.

Lemma cleanup_outcome {Ext Client : Type} (env : Collaborators Ext Client)
    (p : Path) (w : World Ext) :
  cleanup_returns env p w \/ exists e, outcome (cleanup env p w) = Raise e.
Proof.
  unfold cleanup_returns.
  destruct (cleanup_cases env p w)
    as [(_ & _ & ->) | [(e & _ & _ & ->) | (_ & ->)]]; unfold outcome; simpl; eauto.
Qed.

Lemma final_run {Ext A : Type} (r : result A) (w : World Ext) (t : list (Event Ext)) :
  final (r, w, t) = w.
Proof. reflexivity. Qed.

Lemma log_run {Ext A : Type} (r : result A) (w : World Ext) (t : list (Event Ext)) :
  log (r, w, t) = t.
Proof. reflexivity. Qed.

Lemma outcome_run {Ext A : Type} (r : result A) (w : World Ext) (t : list (Event Ext)) :
  outcome (r, w, t) = r.
Proof. reflexivity. Qed.

(** The whole call when the descriptor is written: the [try] block, run once
    the descriptor is there, followed by the [finally] block, whose
    exception, if it raises, replaces the outcome of the [try] block. *)
Lemma run_analysis_query_eq {Ext Client : Type} (env : Collaborators Ext Client)
    (self : Self) (prompt : string) (w : World Ext) :
  write_returns env self w ->
  let body := session env self (descriptor self) prompt (written self w) in
  let tidy := cleanup env (descriptor self) (final body) in
  run_analysis_query env self prompt w
  = (match outcome tidy with
     | Return _ => outcome body
     | Raise e => Raise e
     end, final tidy,
     {| call := CWrite (descriptor self) descriptor_text; before := w |}
       :: log body ++ log tidy).
Proof.
  intros Hopen body tidy. subst tidy body. unfold run_analysis_query, bind.
  rewrite (create_settings_file_eq env self w Hopen). unfold try_finally.
  destruct (session env self (descriptor self) prompt (written self w))
    as [[r w1] t1].
  unfold outcome, final, log. simpl.
  now destruct (cleanup env (descriptor self) w1) as [[[[]|e] w2] t2].
Qed.

(** The whole call when the descriptor cannot be written: the error of
    [open] is raised before the [try] statement, so no client is constructed
    and the [finally] block does not run. *)
Lemma run_analysis_query_unwritable {Ext Client : Type}
    (env : Collaborators Ext Client) (self : Self) (prompt : string)
    (w : World Ext) (e : exn) :
  open_error env (descriptor self) w = Some e ->
  run_analysis_query env self prompt w
  = (Raise e, w, [{| call := CWrite (descriptor self) descriptor_text; before := w |}]).
Proof.
  intros Hopen. unfold run_analysis_query, bind.
  now rewrite (create_settings_file_fails env self w e Hopen).
Qed.

(** With a [finally] block that returns, the call ends as the [try] block
    did, without the descriptor. *)
Lemma run_analysis_query_tidy {Ext Client : Type} (env : Collaborators Ext Client)
    (self : Self) (prompt : string) (w : World Ext) :
  write_returns env self w ->
  let body := session env self (descriptor self) prompt (written self w) in
  cleanup_returns env (descriptor self) (final body) ->
  outcome (run_analysis_query env self prompt w) = outcome body
  /\ absent (descriptor self) (final (run_analysis_query env self prompt w))
  /\ files (final (run_analysis_query env self prompt w))
     = delete (descriptor self) (files (final body))
  /\ ext (final (run_analysis_query env self prompt w)) = ext (final body).
Proof.
  intros Hopen body Htidy. rewrite (run_analysis_query_eq env self prompt w Hopen).
  fold body. rewrite outcome_run, final_run.
  destruct (cleanup_returns_spec env _ _ Htidy) as (Habsent & Hfiles & Hext).
  unfold cleanup_returns in Htidy. rewrite Htidy. now repeat split.
Qed.

(** ** The [try] block, path by path *)

Ltac unfold_session :=
  unfold session, _create_client, _collect_response, async_with, bind, external, ret,
    outcome, final, log.

(** Case analysis on what each operation of the agent SDK does, in the order
    in which the session performs them. *)
Ltac session_cases env prompt :=
  unfold_session;
  let c := fresh "c" in
  destruct (ClaudeSDKClient env _ _) as [[c|?e] ?w] eqn:?Hnew; simpl;
  [ destruct (aenter env c _) as [[?u|?e] ?w] eqn:?Henter; simpl;
    [ destruct (query env c prompt _) as [[?u|?e] ?w] eqn:?Hquery; simpl;
      [ destruct (receive_response env c _) as [?s ?w] eqn:?Hreceive; simpl;
        destruct (collect_stream _ _) as [?text|?e] eqn:?Hcollect; simpl;
        [ destruct (aexit env c None _) as [[?b|?e] ?w] eqn:?Hexit; simpl
        | destruct (aexit env c (Some _) _) as [[[|]|?e] ?w] eqn:?Hexit; simpl ]
      | destruct (aexit env c (Some _) _) as [[[|]|?e] ?w] eqn:?Hexit; simpl ]
    | ]
  | ].

Ltac solve_sublist :=
  repeat first [ apply sublist_nil | apply sublist_skip | apply sublist_cons ].

Section Session.
Context {Ext Client : Type} (env : Collaborators Ext Client).
Context (self : Self) (settings_file : Path) (prompt : string).

(** The session starts by constructing the client, from the options of
    [client_options]. *)
Lemma session_log_head (w : World Ext) :
  exists rest,
    log (session env self settings_file prompt w)
    = {| call := CNewClient (client_options env self settings_file); before := w |}
        :: rest.
Proof. session_cases env prompt; eexists; reflexivity. Qed.

(** It calls the agent only, each operation at most once and in order. *)
Lemma session_log_kinds (w : World Ext) :
  map kind (map call (log (session env self settings_file prompt w)))
    `sublist_of` [KNew; KEnter; KQuery; KReceive; KExit].
Proof. session_cases env prompt; solve_sublist. Qed.

(** It returns a text only when the reply was collected to its end. *)
Lemma session_returns_text (w : World Ext) (response_text : string) :
  outcome (session env self settings_file prompt w) = Return (Some response_text) ->
  exists client ev msgs w',
    ev ∈ log (session env self settings_file prompt w)
    /\ call ev = CReceive
    /\ receive_response env client (before ev) = (stream_of_list msgs, w')
    /\ response_text = assistant_text msgs.
Proof.
  session_cases env prompt; intros H; try discriminate.
  injection H as ->.
  destruct (collect_stream_return _ _ _ Hcollect) as [msgs ->].
  rewrite collect_stream_list, append_nil_l in Hcollect. injection Hcollect as <-.
  exists c, {| call := CReceive; before := w2 |}, msgs, w3.
  split; [| now repeat split].
  set_solver.
Qed.
End Session.

(** With a session whose close lets exceptions pass, the [try] block ends
    with the exception that came up in it. *)
Lemma session_raises {Ext Client : Type} (env : Collaborators Ext Client)
    (self : Self) (prompt : string) (w : World Ext) (e : exn) :
  close_passes env ->
  raised_in_session env self prompt w e ->
  outcome (session env self (descriptor self) prompt w) = Raise e.
Proof.
  intros Hclose Hraised. unfold_session.
  destruct Hraised as [w1 Hnew | c w1 w2 Hnew Henter | c w1 u w2 w3 Hnew Henter Hquery
                      | c w1 u w2 u' w3 s w4 Hnew Henter Hquery Hreceive Hcollect];
    rewrite Hnew; simpl; try reflexivity;
    rewrite Henter; simpl; try reflexivity;
    rewrite Hquery; simpl.
  - destruct (Hclose c (Some e) w3) as [w' ->]. reflexivity.
  - rewrite Hreceive. simpl. rewrite Hcollect.
    destruct (Hclose c (Some e) w4) as [w' ->]. reflexivity.
Qed.

Lemma run_log_kinds {Ext Client : Type} (env : Collaborators Ext Client)
    (self : Self) (prompt : string) (w : World Ext) :
  map kind (map call (log (run_analysis_query env self prompt w)))
    `sublist_of` analysis_order.
Proof.
  destruct (open_error env (descriptor self) w) as [e|] eqn:Hopen.
  - rewrite (run_analysis_query_unwritable env self prompt w e Hopen), log_run.
    simpl. solve_sublist.
  - rewrite (run_analysis_query_eq env self prompt w Hopen), log_run. simpl.
    apply sublist_skip. rewrite !map_app.
    change [KNew; KEnter; KQuery; KReceive; KExit; KExists; KUnlink]
      with ([KNew; KEnter; KQuery; KReceive; KExit] ++ [KExists; KUnlink])%list.
    apply sublist_app; [apply session_log_kinds |].
    destruct (cleanup_spec env (descriptor self)
                (final (session env self (descriptor self) prompt (written self w))))
      as (_ & _ & _ & [-> | ->] & _); solve_sublist.
Qed.

Lemma run_cleanup_runs {Ext Client : Type} (env : Collaborators Ext Client)
    (self : Self) (prompt : string) (w : World Ext) :
  write_returns env self w ->
  exists ev, ev ∈ log (run_analysis_query env self prompt w)
             /\ call ev = CExists (descriptor self).
Proof.
  intros Hopen. rewrite (run_analysis_query_eq env self prompt w Hopen), log_run.
  destruct (cleanup_spec env (descriptor self)
              (final (session env self (descriptor self) prompt (written self w))))
    as (_ & _ & (ev & Hin & Hcall) & _).
  exists ev. split; [set_solver | exact Hcall].
Qed.

(** ** The claims about the whole call *)

(** C1, as the code has it: in every call of [run_analysis_query] in which
    the descriptor can be written, it is written first and is there when the
    client is constructed; as long as the agent does not remove it, it is
    there at every later call, up to the check of the [finally] block; and
    when the [finally] block returns, the descriptor is gone when the call
    ends, however the [try] block ended. *)
Theorem descriptor_lifecycle {Ext Client : Type} (env : Collaborators Ext Client)
    (self : Self) (prompt : string) (w : World Ext) :
  let p := path_div (project_dir self) ".claude_ai_analyzer_settings.json" in
  let run := run_analysis_query env self prompt w in
  let body := session env self p prompt (written self w) in
  open_error env p w = None ->
  present p (written self w)
  /\ (exists rest,
        log run
        = {| call := CWrite p descriptor_text; before := w |}
            :: {| call := CNewClient (client_options env self p);
                  before := written self w |}
            :: rest)
  /\ (agent_keeps env p ->
      Forall (fun ev => is_write (call ev) = false -> present p (before ev)) (log run))
  /\ (cleanup_returns env p (final body) -> absent p (final run)).
Proof.
  intros p run body Hopen. change p with (descriptor self) in *.
  assert (present (descriptor self) (written self w)) as Hwritten.
  { unfold present, written. simpl. rewrite lookup_insert_eq. eauto. }
  split; [exact Hwritten |]. split; [| split].
  - unfold run. rewrite (run_analysis_query_eq env self prompt w Hopen), log_run.
    destruct (session_log_head env self (descriptor self) prompt (written self w))
      as [rest ->].
    eexists. reflexivity.
  - intros Hkeeps. unfold run.
    rewrite (run_analysis_query_eq env self prompt w Hopen), log_run.
    destruct (session_safe env self (descriptor self) (descriptor self) prompt Hkeeps
                (written self w) Hwritten) as [Hfinal Hlog].
    constructor; [discriminate |]. apply Forall_app. split.
    + eapply Forall_impl; [exact Hlog |]. auto.
    + destruct (cleanup_spec env (descriptor self)
                  (final (session env self (descriptor self) prompt (written self w))))
        as (Hbefore & _).
      eapply Forall_impl; [exact Hbefore |]. intros ev -> _. exact Hfinal.
  - intros Htidy. now apply (run_analysis_query_tidy env self prompt w Hopen).
Qed.

Lemma descriptor_lifecycle_witness :
  let self := {| project_dir := repo; language := Some "en" |} in
  let run :=
    run_analysis_query (scripted says_AB) self "analyze" (empty_world (Some "token")) in
  Forall (fun ev => is_write (call ev) = false -> present (descriptor self) (before ev))
    (log run)
  /\ absent (descriptor self) (final run).
Proof.
  intros self run.
  destruct (descriptor_lifecycle (scripted says_AB) self "analyze"
              (empty_world (Some "token")) eq_refl) as (_ & _ & Hwindow & Hgone).
  split; [apply Hwindow | apply Hgone; reflexivity].
  constructor; intros; intros w' Hw'; exact Hw'.
Defined.

(** C1 as stated fails on a run that succeeds: when the descriptor is
    removed while the agent answers, the call returns the text, and the
    descriptor is not there when the session is closed nor when the
    [finally] block checks for it. *)
Lemma descriptor_absent_inside_window :
  let self := {| project_dir := repo; language := Some "en" |} in
  let run :=
    run_analysis_query (scripted descriptor_vanishes) self "analyze"
      (empty_world (Some "token")) in
  outcome run = Return (Some "AB")
  /\ exists ev, ev ∈ log run
                /\ call ev = CExit None
                /\ absent (descriptor self) (before ev).
Proof.
  intros self run. split; [reflexivity |].
  exists {| call := CExit None; before := empty_world (Some "token") |}.
  split; [| split; reflexivity].
  apply list_elem_of_lookup. exists 5. vm_compute. reflexivity.
Qed.

(** C2, as the code has it: in a call in which the descriptor can be
    written, with a session whose close lets exceptions pass and a [finally]
    block that returns, an exception that comes up while the client is
    constructed, the session opened, the prompt submitted or the reply
    collected is the outcome of the call; the [finally] block has run, and
    when it returns the descriptor is gone; each operation is called at most
    once, in the order of one analysis; and a text is returned only when the
    reply was collected to its clean end. *)
Theorem session_exceptions_propagate {Ext Client : Type}
    (env : Collaborators Ext Client) (self : Self) (prompt : string) (w : World Ext) :
  let p := descriptor self in
  let run := run_analysis_query env self prompt w in
  let body := session env self p prompt (written self w) in
  open_error env p w = None ->
  (close_passes env ->
   cleanup_returns env p (final body) ->
   forall e, raised_in_session env self prompt (written self w) e ->
             outcome run = Raise e)
  /\ (cleanup_returns env p (final body) -> absent p (final run))
  /\ (exists ev, ev ∈ log run /\ call ev = CExists p)
  /\ map kind (map call (log run)) `sublist_of` analysis_order
  /\ (forall response_text,
        outcome run = Return (Some response_text) ->
        exists client ev msgs w',
          ev ∈ log run
          /\ call ev = CReceive
          /\ receive_response env client (before ev) = (stream_of_list msgs, w')
          /\ response_text = assistant_text msgs).
Proof.
  intros p run body Hopen. split; [| split; [| split; [| split]]].
  - intros Hclose Htidy e Hraised. unfold run.
    destruct (run_analysis_query_tidy env self prompt w Hopen Htidy) as (-> & _).
    now apply session_raises.
  - intros Htidy. now apply (run_analysis_query_tidy env self prompt w Hopen).
  - now apply run_cleanup_runs.
  - apply run_log_kinds.
  - unfold run. rewrite (run_analysis_query_eq env self prompt w Hopen).
    rewrite outcome_run, log_run. intros response_text H.
    assert (outcome (session env self (descriptor self) prompt (written self w))
            = Return (Some response_text)) as Hbody.
    { destruct (outcome (cleanup env (descriptor self) _)); [exact H | discriminate]. }
    destruct (session_returns_text env self _ prompt _ _ Hbody)
      as (client & ev & msgs & w' & Hin & Hcall & Hreceive & Htext).
    exists client, ev, msgs, w'. split; [| now repeat split].
    set_solver.
Qed.

Lemma session_exceptions_propagate_witness :
  let self := {| project_dir := repo; language := Some "en" |} in
  outcome (run_analysis_query (scripted breaks_off) self "analyze"
             (empty_world (Some "token")))
  = Raise connection_lost.
Proof.
  intros self.
  destruct (session_exceptions_propagate (scripted breaks_off) self "analyze"
              (empty_world (Some "token")) eq_refl) as (Hraise & _).
  apply Hraise.
  - intros c exc w. eexists. reflexivity.
  - reflexivity.
  - eapply (raised_stream (scripted breaks_off) self "analyze" _ _ tt _ tt _ tt _
              (reply breaks_off)); reflexivity.
Defined.

(** C2 as stated fails where the close of the session has a say: the reply
    breaks off with one exception, and the call raises the exception of a
    close that raises, or returns [None] after a close that returns a true
    value. *)
Lemma close_decides_over_exception :
  let self := {| project_dir := repo; language := Some "en" |} in
  let w := empty_world (Some "token") in
  let raising := scripted_close breaks_off (fun _ => Raise disconnect_failed) in
  let swallowing := scripted_close breaks_off (fun _ => Return true) in
  raised_in_session raising self "analyze" (written self w) connection_lost
  /\ outcome (run_analysis_query raising self "analyze" w) = Raise disconnect_failed
  /\ disconnect_failed <> connection_lost
  /\ raised_in_session swallowing self "analyze" (written self w) connection_lost
  /\ outcome (run_analysis_query swallowing self "analyze" w) = Return None.
Proof.
  intros self w raising swallowing.
  split; [| split; [reflexivity | split; [discriminate | split; [| reflexivity]]]].
  - eapply (raised_stream raising self "analyze" _ _ tt _ tt _ tt _
              (reply breaks_off)); reflexivity.
  - eapply (raised_stream swallowing self "analyze" _ _ tt _ tt _ tt _
              (reply breaks_off)); reflexivity.
Qed.

(** C6: when the credential check raises, the constructor raises, with the
    error of the check when the SDK is there, with the world unchanged and
    with no call made but the check: no descriptor is written and the agent
    is not reached. *)
Theorem init_fails_without_credential {Ext Client : Type}
    (env : Collaborators Ext Client) (dir : Path) (lang : option string)
    (w : World Ext) (e : exn) :
  require_auth_token env w = Raise e ->
  let r := __init__ env dir lang w in
  (exists e', outcome r = Raise e')
  /\ (CLAUDE_SDK_AVAILABLE env = true -> outcome r = Raise e)
  /\ final r = w
  /\ Forall (fun ev => call ev = CRequireAuth) (log r)
  /\ Forall (fun ev => is_write (call ev) = false /\ is_agent_call (call ev) = false)
       (log r).
Proof.
  intros Hauth r. unfold r, __init__, _validate_oauth_token, bind, external, raise,
    outcome, final, log.
  destruct (CLAUDE_SDK_AVAILABLE env); simpl.
  - rewrite Hauth. simpl. repeat split; eauto; repeat constructor.
  - repeat split; eauto. discriminate.
Qed.

Lemma init_fails_without_credential_witness :
  let r := __init__ (scripted says_AB) repo (Some "ko") (empty_world None) in
  outcome r = Raise (ValueError "No OAuth token found.")
  /\ final r = empty_world None.
Proof.
  intros r.
  destruct (init_fails_without_credential (scripted says_AB) repo (Some "ko")
              (empty_world None) (ValueError "No OAuth token found.") eq_refl)
    as (_ & Hraise & Hfinal & _).
  split; [apply Hraise; reflexivity | exact Hfinal].
Defined.

Section SessionCalls.
Context {Ext Client : Type} (env : Collaborators Ext Client).
Context (self : Self) (settings_file : Path) (prompt : string).

(** The only client the session constructs is the one configured by
    [client_options], and the session removes no file itself. *)
Lemma session_log_calls (w : World Ext) :
  Forall (fun ev =>
            (kind (call ev) = KNew ->
             call ev = CNewClient (client_options env self settings_file))
            /\ is_unlink (call ev) = false)
    (log (session env self settings_file prompt w)).
Proof.
  session_cases env prompt;
    repeat constructor; simpl; intros; try discriminate; reflexivity.
Qed.
End SessionCalls.

(** C8: [_create_client] constructs the client with the model that "sonnet"
    resolves to, the built system prompt, the tools Read, Glob and Grep, at
    most 50 turns, the resolved project directory as working directory and
    the resolved path of the descriptor; a call of [run_analysis_query] in
    which the descriptor can be written constructs its client so, and no call
    constructs a client otherwise or more than once. *)
Theorem client_configuration {Ext Client : Type} (env : Collaborators Ext Client)
    (self : Self) (prompt : string) (w : World Ext) :
  let p := path_div (project_dir self) ".claude_ai_analyzer_settings.json" in
  let dir := path_str (resolve env (project_dir self)) in
  let options :=
    {| model := resolve_model_id env "sonnet";
       system_prompt := base_prompt dir +:+ language_instruction (language self);
       allowed_tools := ["Read"; "Glob"; "Grep"];
       max_turns := 50;
       cwd := dir;
       settings := path_str (resolve env p) |} in
  let run := run_analysis_query env self prompt w in
  (forall w', _create_client env self p w'
              = external (CNewClient options) (ClaudeSDKClient env options) w')
  /\ (open_error env p w = None ->
      exists ev, ev ∈ log run /\ call ev = CNewClient options)
  /\ Forall (fun ev => kind (call ev) = KNew -> call ev = CNewClient options) (log run)
  /\ map kind (map call (log run)) `sublist_of` analysis_order.
Proof.
  intros p dir options run.
  assert (client_options env self (descriptor self) = options) as Hoptions by reflexivity.
  split; [reflexivity |]. split; [| split].
  - intros Hopen. unfold run.
    rewrite (run_analysis_query_eq env self prompt w Hopen), log_run.
    destruct (session_log_head env self (descriptor self) prompt (written self w))
      as [rest ->].
    rewrite Hoptions.
    exists {| call := CNewClient options; before := written self w |}.
    split; [| reflexivity]. set_solver.
  - unfold run. destruct (open_error env (descriptor self) w) as [e|] eqn:Hopen.
    + rewrite (run_analysis_query_unwritable env self prompt w e Hopen), log_run.
      repeat constructor. discriminate.
    + rewrite (run_analysis_query_eq env self prompt w Hopen), log_run.
      constructor; [discriminate |]. apply Forall_app. split.
      * rewrite <- Hoptions. eapply Forall_impl; [apply session_log_calls |].
        simpl. intros ev [H _]. exact H.
      * destruct (cleanup_spec env (descriptor self)
                    (final (session env self (descriptor self) prompt (written self w))))
          as (_ & Hcalls & _).
        eapply Forall_impl; [exact Hcalls |]. intros ev [-> | ->]; discriminate.
  - apply run_log_kinds.
Qed.

Lemma client_configuration_witness :
  let self := {| project_dir := repo; language := Some "ko" |} in
  let run :=
    run_analysis_query (scripted says_AB) self "analyze" (empty_world (Some "token")) in
  exists ev,
    ev ∈ log run
    /\ call ev
       = CNewClient
           {| model := "claude-sonnet";
              system_prompt := base_prompt "/repo" +:+ language_clause "Korean";
              allowed_tools := ["Read"; "Glob"; "Grep"];
              max_turns := 50;
              cwd := "/repo";
              settings := "/repo/.claude_ai_analyzer_settings.json" |}.
Proof.
  intros self run.
  destruct (client_configuration (scripted says_AB) self "analyze"
              (empty_world (Some "token"))) as (_ & Hev & _).
  exact (Hev eq_refl).
Defined.

(** C10: in a call in which the descriptor was written, when the descriptor
    is already gone as the [finally] block starts, the block checks for it
    and does nothing else; the call removes no file, ends as the [try] block
    ended and in the world it left; an unguarded [unlink] would have raised
    there. *)
Theorem cleanup_only_if_present {Ext Client : Type} (env : Collaborators Ext Client)
    (self : Self) (prompt : string) (w : World Ext) :
  let p := path_div (project_dir self) ".claude_ai_analyzer_settings.json" in
  let body := session env self p prompt (written self w) in
  let run := run_analysis_query env self prompt w in
  open_error env p w = None ->
  absent p (final body) ->
  cleanup env p (final body)
  = (Return tt, final body, [{| call := CExists p; before := final body |}])
  /\ outcome run = outcome body
  /\ final run = final body
  /\ Forall (fun ev => is_unlink (call ev) = false) (log run)
  /\ outcome (unlink (unlink_error env p) p (final body)) = Raise (FileNotFoundError p).
Proof.
  intros p body run Hopen Habsent. change p with (descriptor self) in *.
  pose proof (cleanup_absent env _ _ Habsent) as Hcleanup.
  split; [exact Hcleanup |].
  unfold run. rewrite (run_analysis_query_eq env self prompt w Hopen). fold body.
  rewrite Hcleanup, !outcome_run, !final_run, !log_run.
  split; [reflexivity |]. split; [reflexivity |]. split.
  - constructor; [reflexivity |]. apply Forall_app. split.
    + eapply Forall_impl; [apply session_log_calls |]. simpl. intros ev [_ H]. exact H.
    + repeat constructor.
  - unfold unlink, external, outcome. unfold absent in Habsent. now rewrite Habsent.
Qed.

Lemma cleanup_only_if_present_witness :
  let self := {| project_dir := repo; language := Some "en" |} in
  let run :=
    run_analysis_query (scripted descriptor_vanishes) self "analyze"
      (empty_world (Some "token")) in
  outcome run = Return (Some "AB")
  /\ Forall (fun ev => is_unlink (call ev) = false) (log run).
Proof.
  intros self run.
  destruct (cleanup_only_if_present (scripted descriptor_vanishes) self "analyze"
              (empty_world (Some "token")) eq_refl) as (_ & Hout & _ & Hlog & _).
  - vm_compute. reflexivity.
  - split; [etransitivity; [exact Hout | vm_compute; reflexivity] | exact Hlog].
Defined.

(** ** The constructor *)

(** X1: the constructor returns an instance, holding the directory and the
    language it was given, exactly when the SDK is there and the credential
    check passes; it never changes the world, and without the SDK it does
    not even make the credential check. *)
Theorem init_succeeds_iff {Ext Client : Type} (env : Collaborators Ext Client)
    (dir : Path) (lang : option string) (w : World Ext) :
  let r := __init__ env dir lang w in
  ((exists self, outcome r = Return self)
   <-> CLAUDE_SDK_AVAILABLE env = true /\ require_auth_token env w = Return tt)
  /\ (forall self, outcome r = Return self ->
        project_dir self = dir /\ language self = lang
        /\ map call (log r) = [CRequireAuth])
  /\ final r = w
  /\ (CLAUDE_SDK_AVAILABLE env = false ->
      log r = []
      /\ exists msg, outcome r = Raise (RuntimeError msg)).
Proof.
  intros r. unfold r, __init__, _validate_oauth_token, bind, external, raise, ret,
    outcome, final, log.
  destruct (CLAUDE_SDK_AVAILABLE env); simpl.
  - destruct (require_auth_token env w) as [[]|e] eqn:Hauth; simpl.
    + split; [split; [now intros _ | eauto] |].
      split; [intros self [= <-]; now repeat split |]. split; [reflexivity | discriminate].
    + split; [split; [intros [self H]; discriminate | intros [_ H]; discriminate] |].
      split; [intros self H; discriminate |]. split; [reflexivity | discriminate].
  - split; [split; [intros [self H]; discriminate | intros [H _]; discriminate] |].
    split; [intros self H; discriminate |]. split; [reflexivity |].
    intros _. split; [reflexivity | eauto].
Qed.

(** ** The stages of the [try] block *)

Section Stages.
Context {Ext Client : Type} (env : Collaborators Ext Client).
Context (self : Self) (prompt : string).

Lemma session_fails_to_open (w : World Ext) (e : exn) :
  fails_to_open env self w e ->
  outcome (session env self (descriptor self) prompt w) = Raise e
  /\ Forall (fun ev => is_session_only (kind (call ev)) = false)
       (log (session env self (descriptor self) prompt w)).
Proof.
  intros [[w1 Hnew] | (c & w1 & w2 & Hnew & Henter)]; unfold_session;
    rewrite Hnew; simpl; [| rewrite Henter; simpl];
    (split; [reflexivity | repeat constructor]).
Qed.

(** A close that raises decides how an opened session ends. *)
Lemma session_close_raises (w w2 : World Ext) (c : Client) (e' : exn) :
  close_raises env e' ->
  opens env self w c w2 ->
  outcome (session env self (descriptor self) prompt w) = Raise e'
  /\ exists ev, ev ∈ log (session env self (descriptor self) prompt w)
                /\ kind (call ev) = KExit.
Proof.
  intros Hclose (w1 & u & Hnew & Henter). unfold_session. rewrite Hnew. simpl.
  rewrite Henter. simpl.
  destruct (query env c prompt w2) as [[u'|e] w3]; simpl.
  - destruct (receive_response env c w3) as [s w4]; simpl.
    destruct (collect_stream s EmptyString) as [response_text|e]; simpl.
    + destruct (Hclose c None w4) as [w5 ->]. simpl.
      split; [reflexivity |]. exists {| call := CExit None; before := w4 |}.
      split; [set_solver | reflexivity].
    + destruct (Hclose c (Some e) w4) as [w5 ->]. simpl.
      split; [reflexivity |]. exists {| call := CExit (Some e); before := w4 |}.
      split; [set_solver | reflexivity].
  - destruct (Hclose c (Some e) w3) as [w4 ->]. simpl.
    split; [reflexivity |]. exists {| call := CExit (Some e); before := w3 |}.
    split; [set_solver | reflexivity].
Qed.

(** A close that returns a true value turns an exception of the block into
    the end of the block: the coroutine returns [None]. *)
Lemma session_close_swallows (w w2 : World Ext) (c : Client) (e : exn) :
  close_swallows env ->
  opens env self w c w2 ->
  block_raises env c prompt w2 e ->
  outcome (session env self (descriptor self) prompt w) = Return None.
Proof.
  intros Hclose (w1 & u & Hnew & Henter) Hblock. unfold_session. rewrite Hnew. simpl.
  rewrite Henter. simpl.
  destruct Hblock as [[w3 Hquery] | (u' & w3 & s & w4 & Hquery & Hreceive & Hcollect)];
    rewrite Hquery; simpl.
  - destruct (Hclose c (Some e) w3) as [w4 ->]. reflexivity.
  - rewrite Hreceive. simpl. rewrite Hcollect.
    destruct (Hclose c (Some e) w4) as [w5 ->]. reflexivity.
Qed.

(** The [try] block when every stage succeeds and the close does not
    raise. *)
Lemma session_clean (w w1 w2 w3 w4 w5 : World Ext) (c : Client) (u u' : unit)
    (msgs : list Message) (b : bool) :
  ClaudeSDKClient env (client_options env self (descriptor self)) w = (Return c, w1) ->
  aenter env c w1 = (Return u, w2) ->
  query env c prompt w2 = (Return u', w3) ->
  receive_response env c w3 = (stream_of_list msgs, w4) ->
  aexit env c None w4 = (Return b, w5) ->
  session env self (descriptor self) prompt w
  = (Return (Some (assistant_text msgs)), w5,
     [ {| call := CNewClient (client_options env self (descriptor self)); before := w |};
       {| call := CEnter; before := w1 |};
       {| call := CQuery prompt; before := w2 |};
       {| call := CReceive; before := w3 |};
       {| call := CExit None; before := w4 |} ]).
Proof.
  intros Hnew Henter Hquery Hreceive Hexit. unfold_session.
  rewrite Hnew. simpl. rewrite Henter. simpl. rewrite Hquery. simpl.
  rewrite Hreceive. simpl. rewrite collect_stream_list, append_nil_l.
  rewrite Hexit. reflexivity.
Qed.
End Stages.

(** ** Failures before and at the end of the session *)

(** X2: in a call in which the descriptor can be written, when the
    construction of the client or the opening of its session raises, nothing
    is submitted, nothing is read and no session is closed; and when the
    [finally] block returns, the call raises that exception, whatever the
    SDK's close would do, and the descriptor is removed. *)
Theorem failure_to_open_propagates {Ext Client : Type} (env : Collaborators Ext Client)
    (self : Self) (prompt : string) (w : World Ext) (e : exn) :
  write_returns env self w ->
  fails_to_open env self (written self w) e ->
  let run := run_analysis_query env self prompt w in
  let body := session env self (descriptor self) prompt (written self w) in
  Forall (fun ev => is_session_only (kind (call ev)) = false) (log run)
  /\ (cleanup_returns env (descriptor self) (final body) ->
      outcome run = Raise e /\ absent (descriptor self) (final run)).
Proof.
  intros Hopen Hfail run body.
  destruct (session_fails_to_open env self prompt _ e Hfail) as [Hout Hlog].
  split.
  - unfold run. rewrite (run_analysis_query_eq env self prompt w Hopen), log_run.
    constructor; [reflexivity |]. apply Forall_app. split; [exact Hlog |].
    destruct (cleanup_spec env (descriptor self)
                (final (session env self (descriptor self) prompt (written self w))))
      as (_ & Hcalls & _).
    eapply Forall_impl; [exact Hcalls |]. intros ev [-> | ->]; reflexivity.
  - intros Htidy. unfold run.
    destruct (run_analysis_query_tidy env self prompt w Hopen Htidy)
      as (-> & Habsent & _).
    split; [exact Hout | exact Habsent].
Qed.

Lemma failure_to_open_propagates_witness :
  let self := {| project_dir := repo; language := Some "en" |} in
  outcome (run_analysis_query (scripted refuses_connection) self "analyze"
             (empty_world (Some "token")))
  = Raise cli_not_found.
Proof.
  intros self.
  destruct (failure_to_open_propagates (scripted refuses_connection) self "analyze"
              (empty_world (Some "token")) cli_not_found) as (_ & Hout).
  - reflexivity.
  - right. exists tt. do 2 eexists. split; reflexivity.
  - apply Hout. reflexivity.
Defined.

(** X3: in a call in which the descriptor can be written, every stage
    succeeds, the close does not raise and the [finally] block returns, the
    call returns the text of the assistant messages of the reply; it has
    made, in this order, the write of the descriptor, the construction, the
    opening, the submission of the caller's prompt, the reading and the close
    without exception, then the check of the [finally] block; and it leaves
    the files of the closed session minus the descriptor. *)
Theorem clean_run_returns_text {Ext Client : Type} (env : Collaborators Ext Client)
    (self : Self) (prompt : string) (w w1 w2 w3 w4 w5 : World Ext) (c : Client)
    (u u' : unit) (msgs : list Message) (b : bool) :
  write_returns env self w ->
  ClaudeSDKClient env (client_options env self (descriptor self)) (written self w)
  = (Return c, w1) ->
  aenter env c w1 = (Return u, w2) ->
  query env c prompt w2 = (Return u', w3) ->
  receive_response env c w3 = (stream_of_list msgs, w4) ->
  aexit env c None w4 = (Return b, w5) ->
  cleanup_returns env (descriptor self) w5 ->
  let run := run_analysis_query env self prompt w in
  outcome run = Return (Some (assistant_text msgs))
  /\ take 7 (map call (log run))
     = [ CWrite (descriptor self) descriptor_text;
         CNewClient (client_options env self (descriptor self));
         CEnter; CQuery prompt; CReceive; CExit None;
         CExists (descriptor self) ]
  /\ files (final run) = delete (descriptor self) (files w5)
  /\ ext (final run) = ext w5.
Proof.
  intros Hopen Hnew Henter Hquery Hreceive Hexit Htidy run. unfold run.
  pose proof (session_clean env self prompt _ _ _ _ _ _ c u u' msgs b
                Hnew Henter Hquery Hreceive Hexit) as Hbody.
  pose proof (run_analysis_query_tidy env self prompt w Hopen) as Hrun.
  cbv zeta in Hrun. rewrite Hbody, final_run, outcome_run in Hrun.
  destruct (Hrun Htidy) as (Hout & _ & Hfiles & Hext).
  split; [exact Hout |]. split; [| split; [exact Hfiles | exact Hext]].
  rewrite (run_analysis_query_eq env self prompt w Hopen), Hbody, log_run, final_run.
  destruct (cleanup_cases env (descriptor self) w5)
    as [(_ & _ & ->) | [(e & _ & _ & ->) | (_ & ->)]]; reflexivity.
Qed.

Lemma clean_run_returns_text_witness :
  let self := {| project_dir := repo; language := Some "en" |} in
  outcome (run_analysis_query (scripted says_AB) self "analyze"
             (empty_world (Some "token")))
  = Return (Some "AB").
Proof.
  intros self.
  eapply (clean_run_returns_text (scripted says_AB) self "analyze"
            (empty_world (Some "token")) _ _ _ _ _ tt tt tt
            [assistant_says "A"; assistant_says "B"] false); reflexivity.
Defined.

(** X4: in a call in which the descriptor can be written and the [finally]
    block returns, when the close of an opened session raises, the call
    raises the exception of the close, also when the reply had been collected
    to its end; the session was closed and the descriptor is removed. *)
Theorem close_error_replaces_result {Ext Client : Type}
    (env : Collaborators Ext Client) (self : Self) (prompt : string)
    (w w2 : World Ext) (c : Client) (e' : exn) :
  write_returns env self w ->
  close_raises env e' ->
  opens env self (written self w) c w2 ->
  let run := run_analysis_query env self prompt w in
  let body := session env self (descriptor self) prompt (written self w) in
  cleanup_returns env (descriptor self) (final body) ->
  outcome run = Raise e'
  /\ (exists ev, ev ∈ log run /\ kind (call ev) = KExit)
  /\ absent (descriptor self) (final run).
Proof.
  intros Hopen Hclose Hopens run body Htidy.
  destruct (session_close_raises env self prompt _ _ c e' Hclose Hopens)
    as (Hout & ev & Hin & Hkind).
  destruct (run_analysis_query_tidy env self prompt w Hopen Htidy)
    as (Hrun & Habsent & _).
  split; [| split; [| exact Habsent]].
  - unfold run. now rewrite Hrun.
  - unfold run. rewrite (run_analysis_query_eq env self prompt w Hopen), log_run.
    exists ev. split; [set_solver | exact Hkind].
Qed.

Lemma close_error_replaces_result_witness :
  let self := {| project_dir := repo; language := Some "en" |} in
  outcome (run_analysis_query
             (scripted_close says_AB (fun _ => Raise disconnect_failed)) self "analyze"
             (empty_world (Some "token")))
  = Raise disconnect_failed.
Proof.
  intros self.
  eapply (close_error_replaces_result
            (scripted_close says_AB (fun _ => Raise disconnect_failed)) self "analyze"
            (empty_world (Some "token")) _ tt disconnect_failed).
  - reflexivity.
  - intros c exc w. eexists. reflexivity.
  - do 2 eexists. split; reflexivity.
  - reflexivity.
Defined.

(** X5: in a call in which the descriptor can be written and the [finally]
    block returns, when the close of the session returns a true value, an
    exception of the submission or of the collection is swallowed: the call
    returns [None], neither a text nor the exception. *)
Theorem swallowed_exception_returns_none {Ext Client : Type}
    (env : Collaborators Ext Client) (self : Self) (prompt : string)
    (w w2 : World Ext) (c : Client) (e : exn) :
  write_returns env self w ->
  close_swallows env ->
  opens env self (written self w) c w2 ->
  block_raises env c prompt w2 e ->
  cleanup_returns env (descriptor self)
    (final (session env self (descriptor self) prompt (written self w))) ->
  outcome (run_analysis_query env self prompt w) = Return None.
Proof.
  intros Hopen Hclose Hopens Hblock Htidy.
  destruct (run_analysis_query_tidy env self prompt w Hopen Htidy) as (-> & _).
  exact (session_close_swallows env self prompt _ _ c e Hclose Hopens Hblock).
Qed.

Lemma swallowed_exception_returns_none_witness :
  let self := {| project_dir := repo; language := Some "en" |} in
  outcome (run_analysis_query
             (scripted_close breaks_off (fun _ => Return true)) self "analyze"
             (empty_world (Some "token")))
  = Return None.
Proof.
  intros self.
  eapply (swallowed_exception_returns_none
            (scripted_close breaks_off (fun _ => Return true)) self "analyze"
            (empty_world (Some "token")) _ tt connection_lost).
  - reflexivity.
  - intros c exc w. eexists. reflexivity.
  - do 2 eexists. split; reflexivity.
  - right. exists tt. do 3 eexists. repeat split; reflexivity.
  - reflexivity.
Defined.

(** ** File operations that fail *)

(** X15: when the descriptor cannot be opened for writing, the call raises
    the error of [open] before its [try] statement: the write is its only
    call, no client is constructed, the [finally] block does not run, and the
    world is as it was. *)
Theorem unwritable_descriptor_aborts {Ext Client : Type}
    (env : Collaborators Ext Client) (self : Self) (prompt : string)
    (w : World Ext) (e : exn) :
  open_error env (descriptor self) w = Some e ->
  let run := run_analysis_query env self prompt w in
  outcome run = Raise e
  /\ final run = w
  /\ map call (log run) = [CWrite (descriptor self) descriptor_text].
Proof.
  intros Hopen run. unfold run.
  now rewrite (run_analysis_query_unwritable env self prompt w e Hopen).
Qed.

Lemma unwritable_descriptor_aborts_witness :
  let self := {| project_dir := repo; language := Some "en" |} in
  let run :=
    run_analysis_query (scripted_os says_AB (Some permission_denied) None) self "analyze"
      occupied_world in
  outcome run = Raise permission_denied
  /\ files (final run) !! descriptor self = Some "mine".
Proof.
  intros self run.
  destruct (unwritable_descriptor_aborts
              (scripted_os says_AB (Some permission_denied) None) self "analyze"
              occupied_world permission_denied eq_refl) as (Hout & Hfinal & _).
  split; [exact Hout |]. fold run in Hfinal. rewrite Hfinal. reflexivity.
Defined.

(** X16: when the descriptor is still there as the [finally] block starts
    and the operating system refuses its removal, the call raises the error
    of the removal, whatever the [try] block returned or raised, and the
    descriptor stays in the project directory. *)
Theorem refused_removal_replaces_outcome {Ext Client : Type}
    (env : Collaborators Ext Client) (self : Self) (prompt : string)
    (w : World Ext) (e : exn) :
  let p := descriptor self in
  let body := session env self p prompt (written self w) in
  let run := run_analysis_query env self prompt w in
  write_returns env self w ->
  present p (final body) ->
  unlink_error env p (final body) = Some e ->
  outcome run = Raise e
  /\ final run = final body
  /\ present p (final run).
Proof.
  intros p body run Hopen Hpresent Hunlink. unfold run.
  rewrite (run_analysis_query_eq env self prompt w Hopen). fold p. fold body.
  rewrite (cleanup_refused env p (final body) e Hpresent Hunlink).
  rewrite !outcome_run, !final_run. now repeat split.
Qed.

Lemma refused_removal_replaces_outcome_witness :
  let self := {| project_dir := repo; language := Some "en" |} in
  let run :=
    run_analysis_query (scripted_os says_AB None (Some permission_denied)) self "analyze"
      (empty_world (Some "token")) in
  outcome run = Raise permission_denied
  /\ present (descriptor self) (final run).
Proof.
  intros self run.
  destruct (refused_removal_replaces_outcome
              (scripted_os says_AB None (Some permission_denied)) self "analyze"
              (empty_world (Some "token")) permission_denied) as (Hout & _ & Hstays).
  - reflexivity.
  - vm_compute. eauto.
  - reflexivity.
  - split; [exact Hout | exact Hstays].
Defined.

(** ** The files the call leaves *)

(** The [try] block keeps what every operation of the agent keeps. *)
Lemma session_preserves {Ext Client : Type} (env : Collaborators Ext Client)
    (self : Self) (settings_file : Path) (prompt : string) (P : World Ext -> Prop) :
  agent_preserves env P -> safe P (session env self settings_file prompt).
Proof.
  intros [Hnew Henter Hquery Hreceive Hexit]. unfold session.
  apply safe_bind; [apply safe_external, Hnew |]. intros client.
  apply safe_bind; [| intros; apply safe_ret].
  apply safe_async_with.
  - apply safe_external, Henter.
  - intros exc. apply safe_external, Hexit.
  - apply safe_bind; [apply safe_external, Hquery |]. intros _.
    apply safe_external. intros w HP. specialize (Hreceive client w HP).
    now destruct (receive_response env client w).
Qed.

(** X6: in a call in which the descriptor can be written and the
    [finally] block returns, when the agent only reads, the call leaves the
    files it found minus the descriptor path: a project without a file at
    that path gets its files back unchanged, and a file that was at that path
    before the call is lost. *)
Theorem run_leaves_files_minus_descriptor {Ext Client : Type}
    (env : Collaborators Ext Client) (self : Self) (prompt : string) (w : World Ext) :
  agent_reads_only env ->
  write_returns env self w ->
  let run := run_analysis_query env self prompt w in
  let body := session env self (descriptor self) prompt (written self w) in
  cleanup_returns env (descriptor self) (final body) ->
  files (final run) = delete (descriptor self) (files w)
  /\ (absent (descriptor self) w -> files (final run) = files w)
  /\ Forall (fun ev => is_write (call ev) = false ->
                       files (before ev) = files (written self w)) (log run).
Proof.
  intros Hreads Hopen run body Htidy.
  destruct (session_preserves env self (descriptor self) prompt _
              (Hreads (files (written self w))) (written self w) eq_refl)
    as [Hfinal Hlog].
  assert (files (final run) = delete (descriptor self) (files w)) as Hfiles.
  { unfold run.
    destruct (run_analysis_query_tidy env self prompt w Hopen Htidy)
      as (_ & _ & -> & _).
    rewrite Hfinal. unfold written. simpl. apply delete_insert_eq. }
  split; [exact Hfiles |]. split.
  - intros Habsent. rewrite Hfiles. now apply delete_id.
  - unfold run. rewrite (run_analysis_query_eq env self prompt w Hopen), log_run.
    constructor; [discriminate |]. apply Forall_app. split.
    + eapply Forall_impl; [exact Hlog |]. auto.
    + destruct (cleanup_spec env (descriptor self)
                  (final (session env self (descriptor self) prompt (written self w))))
        as (Hbefore & _).
      eapply Forall_impl; [exact Hbefore |]. intros ev -> _. exact Hfinal.
Qed.

Lemma run_leaves_files_minus_descriptor_witness :
  let self := {| project_dir := repo; language := Some "en" |} in
  let run := run_analysis_query (scripted says_AB) self "analyze" occupied_world in
  files occupied_world !! descriptor self = Some "mine"
  /\ files (final run) = delete (descriptor self) (files occupied_world).
Proof.
  intros self run. split; [reflexivity |].
  apply (run_leaves_files_minus_descriptor (scripted says_AB) self "analyze"
           occupied_world).
  - intros m. constructor; intros; assumption.
  - reflexivity.
  - reflexivity.
Defined.

(** X7: the call itself reads, writes and removes one path only, the
    descriptor: every file call of its log names that path; and in a call in
    which the descriptor can be written, writing it leaves the other files as
    they were, and after the [try] block the other files are as the session
    left them. *)
Theorem run_touches_only_descriptor {Ext Client : Type}
    (env : Collaborators Ext Client) (self : Self) (prompt : string) (w : World Ext) :
  let p := descriptor self in
  let run := run_analysis_query env self prompt w in
  let body := session env self p prompt (written self w) in
  Forall (fun ev =>
            match call ev with
            | CWrite q _ | CExists q | CUnlink q => q = p
            | _ => True
            end) (log run)
  /\ (open_error env p w = None ->
      (forall q, q <> p ->
         files (written self w) !! q = files w !! q
         /\ files (final run) !! q = files (final body) !! q)
      /\ ext (final run) = ext (final body)).
Proof.
  intros p run body. subst run body.
  assert (Forall (fun ev : Event Ext =>
                    match call ev with
                    | CWrite q _ | CExists q | CUnlink q => q = p
                    | _ => True
                    end) (log (session env self p prompt (written self w)))) as Hsession.
  { generalize (written self w). intros w0.
    session_cases env prompt; repeat constructor. }
  destruct (cleanup_spec env p (final (session env self p prompt (written self w))))
    as (_ & Hcalls & _ & _ & Hfiles & Hext).
  split.
  - destruct (open_error env p w) as [e|] eqn:Hopen.
    + rewrite (run_analysis_query_unwritable env self prompt w e Hopen), log_run.
      repeat constructor.
    + rewrite (run_analysis_query_eq env self prompt w Hopen), log_run. fold p.
      constructor; [reflexivity |]. apply Forall_app. split; [exact Hsession |].
      eapply Forall_impl; [exact Hcalls |]. intros ev [-> | ->]; reflexivity.
  - intros Hopen. rewrite (run_analysis_query_eq env self prompt w Hopen), final_run.
    fold p. split; [| exact Hext].
    intros q Hq. split.
    + unfold written. simpl. now apply lookup_insert_ne.
    + now apply Hfiles.
Qed.

(** ** More on the text of the reply *)

(** X8: the loop of [_collect_response] raises exactly when the reply ends
    with an exception, and raises that exception, however much text had been
    accumulated; otherwise it returns the text it started with followed by
    the assistant text of the messages. *)
Theorem collect_stream_by_end (s : Stream) (acc : string) :
  collect_stream s acc
  = match stream_end s with
    | Some e => Raise e
    | None => Return (acc +:+ assistant_text (stream_messages s))
    end.
Proof.
  revert acc. induction s as [|e|msg rest IH]; intros acc; simpl.
  - unfold assistant_text. simpl. now rewrite append_nil_r.
  - reflexivity.
  - fold (is_assistant msg). unfold assistant_text, assistant_texts. simpl.
    destruct (is_assistant msg); rewrite IH;
      (destruct (stream_end rest) as [e|]; [reflexivity |]); [| reflexivity].
    unfold assistant_text, assistant_texts. simpl.
    now rewrite collect_content_app, concat_all_app, append_assoc.
Qed.

Lemma assistant_text_silent (msgs : list Message) :
  Forall (fun msg => is_assistant msg = true ->
                     Forall (fun item => text item = None) (content msg)) msgs ->
  assistant_text msgs = EmptyString.
Proof.
  unfold assistant_text, assistant_texts.
  induction 1 as [|msg msgs Hmsg _ IH]; simpl; [reflexivity |].
  destruct (is_assistant msg); simpl; [| exact IH].
  rewrite concat_all_app, IH, append_nil_r.
  specialize (Hmsg eq_refl). unfold item_texts.
  induction Hmsg as [|item items Hitem _ IHitems]; simpl; [reflexivity |].
  now rewrite Hitem.
Qed.

(** X9: a reply that ends cleanly and in which no assistant message has an
    item with text makes [_collect_response] return the empty string, not
    [None] and not an error. *)
Theorem collect_response_empty {Ext Client : Type} (env : Collaborators Ext Client)
    (self : Self) (client : Client) (w w' : World Ext) (msgs : list Message) :
  Forall (fun msg => is_assistant msg = true ->
                     Forall (fun item => text item = None) (content msg)) msgs ->
  receive_response env client w = (stream_of_list msgs, w') ->
  outcome (_collect_response env self client w) = Return EmptyString.
Proof.
  intros Hsilent Hreceive. unfold _collect_response, external, outcome.
  rewrite Hreceive. simpl.
  now rewrite collect_stream_list, append_nil_l, assistant_text_silent.
Qed.

Lemma collect_response_empty_witness :
  outcome (_collect_response (scripted says_nothing)
             {| project_dir := repo; language := Some "en" |} tt (empty_world None))
  = Return EmptyString.
Proof.
  eapply (collect_response_empty (scripted says_nothing)
            {| project_dir := repo; language := Some "en" |} tt
            (empty_world None) (empty_world None)).
  2: reflexivity.
  repeat (apply List.Forall_cons; [simpl; intros; try discriminate; repeat constructor |]).
  apply List.Forall_nil.
Defined.

(** X10: collecting a reply that arrives in two parts is collecting the
    second part from the text of the first: the text of the whole is the
    text of the first part followed by the text of the second. *)
Theorem collect_stream_app (msgs1 msgs2 : list Message) (acc : string) :
  collect_stream (stream_of_list (msgs1 ++ msgs2)) acc
  = collect_stream (stream_of_list msgs2) (acc +:+ assistant_text msgs1)
  /\ assistant_text (msgs1 ++ msgs2) = assistant_text msgs1 +:+ assistant_text msgs2.
Proof.
  assert (assistant_text (msgs1 ++ msgs2)
          = assistant_text msgs1 +:+ assistant_text msgs2) as Happ.
  { unfold assistant_text, assistant_texts.
    now rewrite List.filter_app, List.flat_map_app, concat_all_app. }
  split; [| exact Happ].
  now rewrite !collect_stream_list, Happ, append_assoc.
Qed.

(** ** The order of the calls *)

(** X11: the calls of one analysis follow one of nine traces.  When the
    descriptor cannot be written, the write is the only call.  Otherwise
    there is the write; then the construction alone, or with the opening, or
    with the opening, the submission and the close, or with the reading
    between the submission and the close; then the check of the [finally]
    block, followed or not by the removal.  So an opened session is always
    closed, a session that was not opened never is, and nothing is read
    before the prompt was submitted. *)
Theorem run_trace_shape {Ext Client : Type} (env : Collaborators Ext Client)
    (self : Self) (prompt : string) (w : World Ext) :
  let kinds := map kind (map call (log (run_analysis_query env self prompt w))) in
  ((exists e, open_error env (descriptor self) w = Some e) /\ kinds = [KWrite])
  \/ (open_error env (descriptor self) w = None
      /\ exists ks kc,
           kinds = (KWrite :: ks ++ kc)%list
           /\ ks ∈ session_traces
           /\ kc ∈ cleanup_traces).
Proof.
  intros kinds. subst kinds.
  destruct (open_error env (descriptor self) w) as [e|] eqn:Hopen.
  - left. rewrite (run_analysis_query_unwritable env self prompt w e Hopen), log_run.
    split; [eauto | reflexivity].
  - right. split; [reflexivity |].
    rewrite (run_analysis_query_eq env self prompt w Hopen), log_run. simpl.
    rewrite !map_app.
    exists (map kind (map call
              (log (session env self (descriptor self) prompt (written self w))))).
    eexists. split; [reflexivity |]. split.
    + generalize (written self w). intros w0. unfold session_traces.
      session_cases env prompt; set_solver.
    + unfold cleanup_traces.
      destruct (cleanup_spec env (descriptor self)
                  (final (session env self (descriptor self) prompt (written self w))))
        as (_ & _ & _ & [-> | ->] & _); set_solver.
Qed.

(** ** Paths and prompts *)

(** X12: two instances use the same descriptor path exactly when they
    analyse the same project directory, whatever their languages. *)
Theorem descriptor_same_iff (self1 self2 : Self) :
  descriptor self1 = descriptor self2 <-> project_dir self1 = project_dir self2.
Proof.
  unfold descriptor, path_div. split.
  - intros H. now apply app_inj_tail in H.
  - now intros ->.
Qed.

(** X13: the system prompt names the directory that the client gets as its
    working directory, and each of the tools that the client is allowed,
    whatever the language. *)
Theorem prompt_names_cwd_and_tools {Ext Client : Type} (env : Collaborators Ext Client)
    (self : Self) (settings_file : Path) :
  let options := client_options env self settings_file in
  contains (system_prompt options) (cwd options)
  /\ Forall (contains (system_prompt options)) (allowed_tools options).
Proof.
  intros options. unfold options, client_options, build_system_prompt, base_prompt.
  simpl. set (dir := path_str (resolve env (project_dir self))).
  set (instr := language_instruction (language self)).
  split.
  - exists ("You are a senior software architect analyzing this codebase. " +:+
            "Your working directory is: ").
    exists (newline +:+ "Use Read, Grep, and Glob tools to analyze actual code. " +:+
            "Output your analysis as valid JSON only." +:+ instr).
    rewrite !append_assoc. reflexivity.
  - unfold ALLOWED_TOOLS. repeat apply List.Forall_cons; [| | | apply List.Forall_nil].
    + exists ("You are a senior software architect analyzing this codebase. " +:+
              "Your working directory is: " +:+ dir +:+ newline +:+ "Use ").
      exists (", Grep, and Glob tools to analyze actual code. " +:+
              "Output your analysis as valid JSON only." +:+ instr).
      rewrite !append_assoc. reflexivity.
    + exists ("You are a senior software architect analyzing this codebase. " +:+
              "Your working directory is: " +:+ dir +:+ newline +:+
              "Use Read, Grep, and ").
      exists (" tools to analyze actual code. " +:+
              "Output your analysis as valid JSON only." +:+ instr).
      rewrite !append_assoc. reflexivity.
    + exists ("You are a senior software architect analyzing this codebase. " +:+
              "Your working directory is: " +:+ dir +:+ newline +:+ "Use Read, ").
      exists (", and Glob tools to analyze actual code. " +:+
              "Output your analysis as valid JSON only." +:+ instr).
      rewrite !append_assoc. reflexivity.
Qed.

Lemma language_clause_nonempty (name : string) : language_clause name <> EmptyString.
Proof. unfold language_clause, newline. rewrite append_cons. discriminate. Qed.

(** X14: the language instruction is empty exactly for [None], for the empty
    code and for "en"; every other code, known or not, gets a clause. *)
Theorem language_instruction_empty_iff (lang : option string) :
  language_instruction lang = EmptyString
  <-> lang = None \/ lang = Some EmptyString \/ lang = Some "en".
Proof.
  split.
  - destruct lang as [code|]; [| now left]. intros H. right.
    destruct (String.eqb_spec code EmptyString) as [-> | Hne]; [now left |].
    destruct (String.eqb_spec code "en") as [-> | Hen]; [now right |].
    rewrite (language_instruction_clause code Hne Hen) in H.
    now apply language_clause_nonempty in H.
  - intros [-> | [-> | ->]]; reflexivity.
Qed.
